(** * Query pagination of the GraphQL compiler: a shallow embedding

    The development follows [graphql_compiler/query_pagination]:
    - [__init__.py]: [_estimate_number_of_pages], [paginate_query_ast];
    - [query_parameterizer.py]: [_generate_new_name],
      [_get_binary_filter_node_parameter], [_get_filter_node_operation],
      [_add_pagination_filter], [_make_binary_filter_directive_node],
      [generate_parameterized_queries].

    Python exceptions are values of [result]; dictionaries are [gmap]s,
    sets are [gset]s. The estimated cardinality is a Python float: the
    estimator is given on floats ([Float]) and in exact arithmetic, the
    reading the orchestrator is stated over. *)

From Stdlib Require Import QArith Qround Lqa Ascii.
From stdpp Require Import base option list strings gmap pretty.

Close Scope Q_scope.
Open Scope Z_scope.

#[local] Set Warnings "-register-all,-clear-no-such-hyp".

(** ** Exceptions *)

Inductive exception : Set :=
| ValueError
| AssertionError
| AttributeError
| IndexError
| NotImplementedError
| GraphQLError
| OverflowError
| ZeroDivisionError
| OutOfFuel (* no Python exception: the bound of a modelled [while] loop ran out *)
| DanglingReference (* no Python exception: a reference to no object of the store *).

Inductive result (A : Type) : Type :=
| Ok (a : A)
| Raise (e : exception).
Arguments Ok {A} a.
Arguments Raise {A} e.

#[global] Instance result_ret : MRet result := fun _ a => Ok a.
#[global] Instance result_bind : MBind result := fun _ _ f m =>
  match m with
  | Ok a => f a
  | Raise e => Raise e
  end.


(** ** Literal parameter values

    Parameter values are never inspected by the pagination code. *)

Inductive Literal : Set :=
| LitInt (z : Z)
| LitStr (s : string).

(** ** The Boundary Estimator ([__init__.py]) in exact arithmetic

    The estimator with every float operation exact: the cardinality is a
    rational. It is [Float._estimate_number_of_pages] under
    [Float.exact_rounding]. *)

(** [result_size < 0.0] *)
Definition Qneg (c : Q) : bool := negb (Qle_bool (0%Q) c).

(** [int((result_size + page_size - 1) // page_size)]: floor division of
    floats, the quotient then converted to an integer. *)
Definition floordiv (c : Q) (page_size : Z) : Z :=
  Qfloor ((c + inject_Z page_size - 1) / inject_Z page_size)%Q.

Definition _estimate_number_of_pages {QueryT : Type} (query : QueryT)
    (result_size : Q) (page_size : Z) : result Z :=
  if page_size <? 1 then Raise ValueError
  else if Qneg result_size then Raise AssertionError
  else
    let num_pages := floordiv result_size page_size in
    if num_pages =? 0 then Ok 1 else Ok num_pages.

(** What the comment next to the formula announces: the quotient rounded
    up, at least one page. *)
Definition ceil_pages (c : Q) (page_size : Z) : Z :=
  Z.max 1 (Qceiling (c / inject_Z page_size)%Q).

(** ** The Boundary Estimator on floats

    [result_size] is a Python float: [NaN] (not a number), an infinity or
    a finite rational; the sign of a zero is not kept (the estimator never
    looks at it). An arithmetic operation of IEEE 754 returns the exact
    result rounded: the rounding of binary64 is the parameter [round],
    known by its laws [RoundingLaws] only. *)

Module Float.

Inductive float : Set :=
| NaN
| Inf (negative : bool)
| Fin (q : Q).

Class Rounding : Type := { round : Q -> float }.

(** [x <= y] on floats that are numbers or infinities. *)
Definition fle (x y : float) : Prop :=
  match x, y with
  | NaN, _ | _, NaN => False
  | Inf true, _ => True
  | _, Inf false => True
  | Fin a, Fin b => (a <= b)%Q
  | _, _ => False
  end.

(** What the estimator needs of round-to-nearest: a result is never
    not-a-number, rounding is monotone, 0 and 1 are floats, a result of
    rounding is a float (and rounds to itself), and the integer above a
    finite float is within range. *)
Class RoundingLaws (R : Rounding) : Prop := {
  round_not_nan : forall q, round q <> NaN;
  round_monotone : forall a b, (a <= b)%Q -> fle (round a) (round b);
  round_zero : round 0 = Fin 0;
  round_one : round 1 = Fin 1;
  round_representable : forall q r, round q = Fin r -> round r = Fin r;
  round_ceiling : forall q r, round q = Fin r ->
    exists r', round (inject_Z (Qceiling r)) = Fin r'
}.

(** Binary64 holds every integer up to [2^53]: rounding is exact there. *)
Class ExactIntegers (R : Rounding) : Prop :=
  round_integer : forall q z,
    (q == inject_Z z)%Q -> Z.abs z <= 2 ^ 53 ->
    exists r, round q = Fin r /\ (r == q)%Q.

Section Arithmetic.
Context {R : Rounding}.

Definition Qnegative (q : Q) : bool := negb (Qle_bool 0 q).

(** [int(q)] of a rational: towards zero. *)
Definition Qtrunc (q : Q) : Z :=
  if Qle_bool 0 q then Qfloor q else Qceiling q.

Definition fopp (x : float) : float :=
  match x with
  | NaN => NaN
  | Inf s => Inf (negb s)
  | Fin q => Fin (- q)
  end.

Definition fadd (x y : float) : float :=
  match x, y with
  | NaN, _ | _, NaN => NaN
  | Inf s, Inf s' => if Bool.eqb s s' then Inf s else NaN
  | Inf s, Fin _ | Fin _, Inf s => Inf s
  | Fin a, Fin b => round (a + b)
  end.

Definition fsub (x y : float) : float := fadd x (fopp y).

Definition fdiv (x y : float) : float :=
  match x, y with
  | NaN, _ | _, NaN => NaN
  | Inf _, Inf _ => NaN
  | Inf s, Fin b => Inf (xorb s (Qnegative b))
  | Fin _, Inf _ => Fin 0
  | Fin a, Fin b =>
      if Qeq_bool b 0 then (if Qeq_bool a 0 then NaN else Inf (Qnegative a))
      else round (a / b)
  end.

(** [x < y] *)
Definition flt (x y : float) : bool :=
  match x, y with
  | NaN, _ | _, NaN => false
  | Inf true, Inf true => false
  | Inf true, _ => true
  | _, Inf true => false
  | Inf false, _ => false
  | Fin _, Inf false => true
  | Fin a, Fin b => negb (Qle_bool b a)
  end.

Definition is_finite (x : float) : bool :=
  match x with
  | Fin _ => true
  | _ => false
  end.

(** [x == 0.0] *)
Definition is_zero (x : float) : bool :=
  match x with
  | Fin q => Qeq_bool q 0
  | _ => false
  end.

(** C's [fmod]: exact, with the sign of [x]. *)
Definition fmod (x y : float) : float :=
  match x, y with
  | NaN, _ | _, NaN => NaN
  | Inf _, _ => NaN
  | Fin a, Inf _ => Fin a
  | Fin a, Fin b =>
      if Qeq_bool b 0 then NaN
      else Fin (a - b * inject_Z (Qtrunc (a / b)))
  end.

(** C's [floor]: exact. *)
Definition floor (x : float) : float :=
  match x with
  | Fin q => Fin (inject_Z (Qfloor q))
  | _ => x
  end.

(** The last step of [float_divmod]: the quotient is snapped to the
    nearest integral value. *)
Definition snap (quotient : float) : float :=
  if negb (is_zero quotient) then
    let floordiv := floor quotient in
    if flt (Fin (1 # 2)) (fsub quotient floordiv) then fadd floordiv (Fin 1)
    else floordiv
  else Fin 0.

(** [x // y] on floats: CPython's [float_floor_div], the quotient of
    [float_divmod]. The operations are those of C on doubles. *)
Definition float_floor_div (vx wx : float) : result float :=
  if is_zero wx then Raise ZeroDivisionError
  else
    let remainder := fmod vx wx in
    let quotient := fdiv (fsub vx remainder) wx in
    let quotient :=
      if negb (is_zero remainder) then
        if xorb (flt wx (Fin 0)) (flt remainder (Fin 0))
        then fsub quotient (Fin 1)
        else quotient
      else quotient in
    Ok (snap quotient).

(** An [int] operand of a float operation is converted first. *)
Definition float_of_int (z : Z) : result float :=
  match round (inject_Z z) with
  | Inf _ => Raise OverflowError
  | x => Ok x
  end.

(** [int(x)] *)
Definition int_of_float (x : float) : result Z :=
  match x with
  | NaN => Raise ValueError
  | Inf _ => Raise OverflowError
  | Fin q => Ok (Qtrunc q)
  end.

Definition _estimate_number_of_pages {QueryT : Type} (query : QueryT)
    (result_size : float) (page_size : Z) : result Z :=
  if page_size <? 1 then Raise ValueError
  else if flt result_size (Fin 0) then Raise AssertionError
  else
    addend ← float_of_int page_size;
    let numerator := fsub (fadd result_size addend) (Fin 1) in
    divisor ← float_of_int page_size;
    quotient ← float_floor_div numerator divisor;
    num_pages ← int_of_float quotient;
    if num_pages =? 0 then Ok 1 else Ok num_pages.

End Arithmetic.

(** Exact arithmetic: every rational is a float. *)
Definition exact_rounding : Rounding := {| round := Fin |}.

End Float.

(** ** The query AST (the node classes of [graphql.language.ast] in use)

    A [NameNode] is its [value]; a [SelectionSetNode] is its list of
    [selections]; an attribute holding [None] is [None] here. Source
    locations are not modelled. *)

Inductive ValueNode : Set :=
| StringValueNode (value : string)
| IntValueNode (value : string)
| VariableNode (name : string)
| ListValueNode (values : list ValueNode).

Record ArgumentNode : Set := mkArgumentNode {
  argument_name : string;
  argument_value : ValueNode
}.

Record DirectiveNode : Set := mkDirectiveNode {
  directive_name : string;
  directive_arguments : list ArgumentNode
}.

Inductive OperationType : Set := QUERY | MUTATION | SUBSCRIPTION.

Inductive Node : Set :=
| FieldNode (alias : option string) (name : string)
    (arguments : option (list ArgumentNode))
    (directives : list DirectiveNode) (selection_set : option (list Node))
| InlineFragmentNode (type_condition : string)
    (directives : list DirectiveNode) (selection_set : option (list Node))
| OperationDefinitionNode (operation : OperationType) (name : option string)
    (directives : list DirectiveNode) (selection_set : option (list Node))
| FragmentSpreadNode (name : string) (directives : list DirectiveNode).

Record DocumentNode : Set := mkDocumentNode {
  definitions : list Node
}.

(** [node.selection_set] *)
Definition selection_set_of (n : Node) : option (list Node) :=
  match n with
  | FieldNode _ _ _ _ ss => ss
  | InlineFragmentNode _ _ ss => ss
  | OperationDefinitionNode _ _ _ ss => ss
  | FragmentSpreadNode _ _ => None
  end.

(** [node.directives] *)
Definition directives_of (n : Node) : list DirectiveNode :=
  match n with
  | FieldNode _ _ _ ds _ => ds
  | InlineFragmentNode _ ds _ => ds
  | OperationDefinitionNode _ _ ds _ => ds
  | FragmentSpreadNode _ ds => ds
  end.

(** [new = copy(node); new.directives = ds] *)
Definition copy_with_directives (n : Node) (ds : list DirectiveNode) : Node :=
  match n with
  | FieldNode a nm args _ ss => FieldNode a nm args ds ss
  | InlineFragmentNode tc _ ss => InlineFragmentNode tc ds ss
  | OperationDefinitionNode op nm _ ss => OperationDefinitionNode op nm ds ss
  | FragmentSpreadNode nm _ => FragmentSpreadNode nm ds
  end.

(** [new = copy(node); new.selection_set = SelectionSetNode(selections=sels)],
    on the three node kinds that pass the [isinstance] test. *)
Definition copy_with_selections (n : Node) (sels : list Node) : Node :=
  match n with
  | FieldNode a nm args ds _ => FieldNode a nm args ds (Some sels)
  | InlineFragmentNode tc ds _ => InlineFragmentNode tc ds (Some sels)
  | OperationDefinitionNode op nm ds _ => OperationDefinitionNode op nm ds (Some sels)
  | FragmentSpreadNode nm ds => FragmentSpreadNode nm ds
  end.

(** [isinstance(query_ast, (FieldNode, InlineFragmentNode, OperationDefinitionNode))] *)
Definition is_selection_capable (n : Node) : bool :=
  match n with
  | FragmentSpreadNode _ _ => false
  | _ => true
  end.

(** ** Queries, plans and results *)

Record ASTWithParameters : Type := mkASTWithParameters {
  query_ast : DocumentNode;
  parameters : gmap string Literal
}.

Record QueryStringWithParameters : Type := mkQueryStringWithParameters {
  query_string : string;
  string_parameters : gmap string Literal
}.

Record VertexPartitionPlan : Set := mkVertexPartitionPlan {
  query_path : list string;
  pagination_field : string;
  number_of_splits : Z
}.

Record PaginationPlan : Set := mkPaginationPlan {
  vertex_partitions : list VertexPartitionPlan
}.

Record PaginationAdvisory : Set := mkPaginationAdvisory {
  advisory_message : string
}.

(** The schema and statistics context is only handed on to collaborators. *)
Inductive QueryPlanningSchemaInfo : Set :=
| SchemaInfoRef (n : nat).

Record QueryPlanningAnalysis : Type := mkQueryPlanningAnalysis {
  schema_info : QueryPlanningSchemaInfo;
  ast_with_parameters : ASTWithParameters;
  query_string_with_parameters : QueryStringWithParameters;
  cardinality_estimate : Q
}.

Record PageAndRemainder (T : Type) : Type := mkPageAndRemainder {
  whole_query : T;
  page_size : Z;
  one_page : T;
  remainder : list T
}.
Arguments mkPageAndRemainder {T}.
Arguments whole_query {T}.
Arguments page_size {T}.
Arguments one_page {T}.
Arguments remainder {T}.

(** ** The Query Parameterizer ([query_parameterizer.py]) *)

(** ["{}_{}".format(base_name, index)] *)
Definition format_name (base_name : string) (index : nat) : string :=
  base_name +:+ "_" +:+ pretty index.

(** The [while] loop of [_generate_new_name], from [index] on, with a bound
    on the number of iterations. *)
Fixpoint _generate_new_name_loop (fuel : nat) (base_name : string)
    (taken_names : gset string) (index : nat) : option string :=
  match fuel with
  | O => None
  | S fuel' =>
      if decide (format_name base_name index ∈ taken_names)
      then _generate_new_name_loop fuel' base_name taken_names (S index)
      else Some (format_name base_name index)
  end.

Definition _generate_new_name (base_name : string) (taken_names : gset string)
    : option string :=
  _generate_new_name_loop (S (size taken_names)) base_name taken_names 0.

(** [node.value] for a value node: a string for string and integer literals,
    no such attribute on variables and lists. *)
Definition value_attr (v : ValueNode) : result string :=
  match v with
  | StringValueNode s => Ok s
  | IntValueNode s => Ok s
  | VariableNode _ => Raise AttributeError
  | ListValueNode _ => Raise AttributeError
  end.

(** [node.values] *)
Definition values_attr (v : ValueNode) : result (list ValueNode) :=
  match v with
  | ListValueNode vs => Ok vs
  | _ => Raise AttributeError
  end.

(** [sequence[i]] *)
Definition item {A} (l : list A) (i : nat) : result A :=
  match l !! i with
  | Some a => Ok a
  | None => Raise IndexError
  end.

Definition _get_filter_node_operation (filter_directive : DirectiveNode)
    : result string :=
  a ← item (directive_arguments filter_directive) 0;
  value_attr (argument_value a).

Definition _make_binary_filter_directive_node (op_name param_name : string)
    : DirectiveNode :=
  mkDirectiveNode "filter"
    [ mkArgumentNode "op_name" (StringValueNode op_name);
      mkArgumentNode "value"
        (ListValueNode [StringValueNode ("$" +:+ param_name)]) ].

(** [k not in removed_parameters], for a list *)
Definition not_removed (removed : list string) (kv : string * Literal) : Prop :=
  kv.1 ∉ removed.

#[global] Instance not_removed_dec removed kv : Decision (not_removed removed kv).
Proof. unfold not_removed. apply _. Defined.

(** [{k: v for k, v in parameters.items() if k not in removed}] *)
Definition prune_parameters (parameters : gmap string Literal)
    (removed : list string) : gmap string Literal :=
  filter (not_removed removed) parameters.

(** The objects that reach a call of [generate_parameterized_queries]. *)
Inductive PyObject : Type :=
| ObjQueryPlanningAnalysis (a : QueryPlanningAnalysis)
| ObjSchemaInfo (s : QueryPlanningSchemaInfo)
| ObjASTWithParameters (q : ASTWithParameters)
| ObjVertexPartitionPlan (p : VertexPartitionPlan)
| ObjLiteral (v : Literal).

(** Helpers of other modules of the compiler, used as given:
    [compiler.helpers.get_parameter_name], and
    [ast_manipulation.get_ast_field_name] and
    [ast_manipulation.get_only_query_definition] (called with
    [GraphQLError]). *)
Class CompilerHelpers : Type := {
  get_parameter_name : string -> result string
}.

Class AstManipulation : Type := {
  get_ast_field_name : Node -> result string;
  get_only_query_definition : DocumentNode -> result Node
}.

(** The external collaborators [pagination_planning.get_pagination_plan] and
    [parameter_generator.generate_parameters_for_vertex_partition]; the
    generator is the sequence of the values it yields. *)
Class Collaborators : Type := {
  get_pagination_plan :
    QueryPlanningAnalysis -> Z -> PaginationPlan * list PaginationAdvisory;
  generate_parameters_for_vertex_partition :
    QueryPlanningSchemaInfo -> ASTWithParameters -> VertexPartitionPlan ->
    list Literal
}.

Section Parameterizer.
Context {CH : CompilerHelpers} {AM : AstManipulation}.

Definition _get_binary_filter_node_parameter (filter_directive : DirectiveNode)
    : result string :=
  a ← item (directive_arguments filter_directive) 1;
  filter_arguments ← values_attr (argument_value a);
  if negb (length filter_arguments =? 1)%nat then Raise AssertionError
  else
    first ← item filter_arguments 0;
    argument_name ← value_attr first;
    get_parameter_name argument_name.

(** The loop over [selection_ast.directives]: the directives kept, and the
    parameter names of those dropped. *)
Fixpoint prune_directives (directive_to_add : DirectiveNode)
    (directives : list DirectiveNode)
    : result (list DirectiveNode * list string) :=
  match directives with
  | [] => Ok ([], [])
  | directive :: rest =>
      operation ← _get_filter_node_operation directive;
      operation_to_add ← _get_filter_node_operation directive_to_add;
      if decide (operation = operation_to_add) then
        parameter ← _get_binary_filter_node_parameter directive;
        '(kept, removed) ← prune_directives directive_to_add rest;
        Ok (kept, parameter :: removed)
      else
        '(kept, removed) ← prune_directives directive_to_add rest;
        Ok (directive :: kept, removed)
  end.

(** The loop over the selections of the target vertex ([len(query_path) == 0]):
    the new selections, the removed parameter names and [found_field]. *)
Fixpoint filter_target_selections (pagination_field : string)
    (directive_to_add : DirectiveNode) (selections : list Node)
    : result (list Node * list string * bool) :=
  match selections with
  | [] => Ok ([], [], false)
  | selection_ast :: rest =>
      field_name ← get_ast_field_name selection_ast;
      if decide (field_name = pagination_field) then
        '(new_directives, removed) ←
          prune_directives directive_to_add (directives_of selection_ast);
        let new_selection_ast :=
          copy_with_directives selection_ast (new_directives ++ [directive_to_add]) in
        '(new_selections, removed_rest, _) ←
          filter_target_selections pagination_field directive_to_add rest;
        Ok (new_selection_ast :: new_selections, removed ++ removed_rest, true)
      else
        '(new_selections, removed_rest, found_field) ←
          filter_target_selections pagination_field directive_to_add rest;
        Ok (selection_ast :: new_selections, removed_rest, found_field)
  end.

(** The loop over the selections of a vertex above the target: [recurse] is
    the recursive call on the rest of the path. *)
Fixpoint descend_selections (recurse : Node -> result (Node * list string))
    (segment : string) (selections : list Node)
    : result (list Node * list string * bool) :=
  match selections with
  | [] => Ok ([], [], false)
  | selection_ast :: rest =>
      field_name ← get_ast_field_name selection_ast;
      if decide (field_name = segment) then
        '(new_selection_ast, sub_removed_parameters) ← recurse selection_ast;
        '(new_selections, removed_rest, _) ←
          descend_selections recurse segment rest;
        Ok (new_selection_ast :: new_selections,
            sub_removed_parameters ++ removed_rest, true)
      else
        '(new_selections, removed_rest, found_field) ←
          descend_selections recurse segment rest;
        Ok (selection_ast :: new_selections, removed_rest, found_field)
  end.

(** [FieldNode(name=NameNode(value=pagination_field), directives=[directive_to_add])] *)
Definition new_filter_selection (pagination_field : string)
    (directive_to_add : DirectiveNode) : Node :=
  FieldNode None pagination_field None [directive_to_add] None.

Fixpoint _add_pagination_filter (query_ast : Node) (query_path : list string)
    (pagination_field : string) (directive_to_add : DirectiveNode)
    {struct query_path} : result (Node * list string) :=
  if negb (is_selection_capable query_ast) then Raise AssertionError
  else
    match query_path with
    | [] =>
        match selection_set_of query_ast with
        | None => Raise AttributeError
        | Some selections =>
            '(new_selections, removed_parameters, found_field) ←
              filter_target_selections pagination_field directive_to_add selections;
            let new_selections :=
              if found_field : bool then new_selections
              else new_filter_selection pagination_field directive_to_add
                     :: new_selections in
            Ok (copy_with_selections query_ast new_selections, removed_parameters)
        end
    | segment :: query_path' =>
        match selection_set_of query_ast with
        | None => Raise AssertionError
        | Some selections =>
            '(new_selections, removed_parameters, found_field) ←
              descend_selections
                (fun selection_ast =>
                   _add_pagination_filter selection_ast query_path'
                     pagination_field directive_to_add)
                segment selections;
            if found_field : bool
            then Ok (copy_with_selections query_ast new_selections, removed_parameters)
            else Raise AssertionError
        end
    end.

(** [schema_info] is never read. *)
Definition generate_parameterized_queries {SchemaInfoT : Type}
    (schema_info : SchemaInfoT)
    (query : ASTWithParameters) (vertex_partition : VertexPartitionPlan)
    : result (ASTWithParameters * ASTWithParameters * string) :=
  query_type ← get_only_query_definition (query_ast query);
  match _generate_new_name "__paged_param" (dom (parameters query)) with
  | None => Raise OutOfFuel
  | Some param_name =>
      '(next_page_root, next_page_removed_parameters) ←
        _add_pagination_filter query_type (query_path vertex_partition)
          (pagination_field vertex_partition)
          (_make_binary_filter_directive_node "<" param_name);
      '(remainder_root, remainder_removed_parameters) ←
        _add_pagination_filter query_type (query_path vertex_partition)
          (pagination_field vertex_partition)
          (_make_binary_filter_directive_node ">=" param_name);
      let page_parameters :=
        prune_parameters (parameters query) next_page_removed_parameters in
      let remainder_parameters :=
        prune_parameters (parameters query) remainder_removed_parameters in
      let next_page :=
        mkASTWithParameters (mkDocumentNode [next_page_root]) page_parameters in
      let remainder :=
        mkASTWithParameters (mkDocumentNode [remainder_root]) remainder_parameters in
      Ok (next_page, remainder, param_name)
  end.

End Parameterizer.

(** ** The Pagination Orchestrator ([__init__.py]) *)

Section Orchestrator.
Context {CH : CompilerHelpers} {AM : AstManipulation} {CO : Collaborators}.

(** The call in [paginate_query_ast] passes
    [(query_analysis, plan_vertex_partition, first_param)], which Python binds
    by position to the parameters [(schema_info, query, vertex_partition)] of
    [generate_parameterized_queries]. The body starts with [query.query_ast],
    an attribute only [ASTWithParameters] has; [vertex_partition.query_path]
    is read after [get_only_query_definition] returned. *)
Definition generate_parameterized_queries_call
    (schema_info query vertex_partition : PyObject)
    : result (ASTWithParameters * ASTWithParameters * string) :=
  match query with
  | ObjASTWithParameters q =>
      match vertex_partition with
      | ObjVertexPartitionPlan vp =>
          generate_parameterized_queries schema_info q vp
      | _ =>
          _ ← get_only_query_definition (query_ast q);
          Raise AttributeError
      end
  | _ => Raise AttributeError
  end.

(** [a, b = t] where [t] is a tuple of three items: too many values to
    unpack. *)
Definition unpack_two {A B C : Type} (t : A * B * C) : result (A * B) :=
  Raise ValueError.

Definition paginate_query_ast (query_analysis : QueryPlanningAnalysis)
    (page_size : Z)
    : result (PageAndRemainder ASTWithParameters * list PaginationAdvisory) :=
  if page_size <? 1 then Raise ValueError
  else
    let page_query := ast_with_parameters query_analysis in
    let result_size := cardinality_estimate query_analysis in
    num_pages ← _estimate_number_of_pages
                  (query_string_with_parameters query_analysis) result_size page_size;
    '(page_query, remainder_queries, advisories) ←
      (if 1 <? num_pages then
         let '(pagination_plan, advisories) :=
           get_pagination_plan query_analysis num_pages in
         match vertex_partitions pagination_plan with
         | [] => Ok (page_query, [], advisories)
         | [plan_vertex_partition] =>
             let parameter_generator :=
               generate_parameters_for_vertex_partition
                 (schema_info query_analysis)
                 (ast_with_parameters query_analysis) plan_vertex_partition in
             match parameter_generator with
             | [] => Ok (page_query, [], advisories)
             | first_param :: _ =>
                 returned ← generate_parameterized_queries_call
                              (ObjQueryPlanningAnalysis query_analysis)
                              (ObjVertexPartitionPlan plan_vertex_partition)
                              (ObjLiteral first_param);
                 '(page_query, remainder_query) ← unpack_two returned;
                 Ok (page_query, [remainder_query], advisories)
             end
         | _ => Raise NotImplementedError
         end
       else Ok (page_query, [], []));
    Ok (mkPageAndRemainder (ast_with_parameters query_analysis) page_size
          page_query remainder_queries,
        advisories).

End Orchestrator.

(** ** Vocabulary of the properties *)

#[global] Instance exception_eq_dec : EqDecision exception.
Proof. solve_decision. Defined.

#[global] Instance result_eq_dec `{EqDecision A} : EqDecision (result A).
Proof. solve_decision. Defined.

Section Vocabulary.
Context {CH : CompilerHelpers} {AM : AstManipulation}.

(** [reaches root path pos v]: following [path] from [root], through the
    selections at the positions [pos], leads to the vertex [v]. *)
Inductive reaches : Node -> list string -> list nat -> Node -> Prop :=
| reaches_here v : reaches v [] [] v
| reaches_step n selections i selection_ast segment path pos v :
    selection_set_of n = Some selections ->
    selections !! i = Some selection_ast ->
    get_ast_field_name selection_ast = Ok segment ->
    reaches selection_ast path pos v ->
    reaches n (segment :: path) (i :: pos) v.

(** The node at the positions [pos] below [n]. *)
Fixpoint subnode (n : Node) (pos : list nat) : option Node :=
  match pos with
  | [] => Some n
  | i :: pos' =>
      selections ← selection_set_of n;
      selection_ast ← selections !! i;
      subnode selection_ast pos'
  end.

(** A directive has the comparator of the directive being inserted. *)
Definition same_operation (directive_to_add directive : DirectiveNode) : Prop :=
  _get_filter_node_operation directive =
  _get_filter_node_operation directive_to_add.

#[global] Instance same_operation_dec d x : Decision (same_operation d x).
Proof. unfold same_operation. apply _. Defined.

(** What the rewrite makes of one selection of the target vertex, and the
    parameter names it records for it. *)
Definition rewritten_selection (pagination_field : string)
    (directive_to_add : DirectiveNode) (selection_ast new_selection_ast : Node)
    (removed : list string) : Prop :=
  if decide (get_ast_field_name selection_ast = Ok pagination_field) then
    new_selection_ast =
      copy_with_directives selection_ast
        (filter (fun x => ~ same_operation directive_to_add x)
           (directives_of selection_ast) ++ [directive_to_add]) /\
    Forall2 (fun x p => _get_binary_filter_node_parameter x = Ok p)
      (filter (same_operation directive_to_add) (directives_of selection_ast))
      removed
  else new_selection_ast = selection_ast /\ removed = [].

(** What the rewrite makes of the target vertex. *)
Definition rewritten_target (pagination_field : string)
    (directive_to_add : DirectiveNode) (v v' : Node) (removed : list string)
    : Prop :=
  exists selections,
    selection_set_of v = Some selections /\
    if decide (Exists (fun s => get_ast_field_name s = Ok pagination_field)
                 selections)
    then
      exists new_selections removed_each,
        v' = copy_with_selections v new_selections /\
        Forall3 (rewritten_selection pagination_field directive_to_add)
          selections new_selections removed_each /\
        removed = concat removed_each
    else
      v' = copy_with_selections v
             (new_filter_selection pagination_field directive_to_add
                :: selections) /\
      removed = [].



(** The vertex at [pos] below [root] has a selection on the pagination
    field whose last directive is [directive], its only directive of that
    comparator: the selection is new and carries nothing else, or it is a
    selection on the pagination field with other directives. *)
Definition pagination_filter_at (root : Node) (pos : list nat)
    (pagination_field : string) (directive : DirectiveNode) : Prop :=
  exists v' selections selection_ast,
    subnode root pos = Some v' /\
    selection_set_of v' = Some selections /\
    selection_ast ∈ selections /\
    (selection_ast = new_filter_selection pagination_field directive \/
     exists original,
       get_ast_field_name original = Ok pagination_field /\
       selection_ast =
         copy_with_directives original (directives_of selection_ast)) /\
    last (directives_of selection_ast) = Some directive /\
    filter (same_operation directive) (directives_of selection_ast)
      = [directive].

End Vocabulary.

(** ** The parameterizer over a store of objects

    The same functions with every node, document and dictionary an object
    of a store, referred to by its location: [copy] allocates, an attribute
    assignment overwrites the object it is made on. A list is held by value
    in the object that owns it. *)

Module Store.

Abbreviation loc := positive.

Inductive Cell : Type :=
| FieldCell (alias : option string) (name : string)
    (arguments : option (list ArgumentNode))
    (directives : list DirectiveNode) (selection_set : option (list loc))
| InlineFragmentCell (type_condition : string)
    (directives : list DirectiveNode) (selection_set : option (list loc))
| OperationDefinitionCell (operation : OperationType) (name : option string)
    (directives : list DirectiveNode) (selection_set : option (list loc))
| FragmentSpreadCell (name : string) (directives : list DirectiveNode)
| DocumentCell (definitions : list loc)
| DictCell (items : gmap string Literal).

Abbreviation Heap := (gmap loc Cell).

(** An [ASTWithParameters] tuple holds two references. *)
Record ASTWithParameters : Set := mkASTWithParameters {
  query_ast : loc;
  parameters : loc
}.

(** Computations on the store that may raise. *)
Definition M (A : Type) : Type := Heap -> result (A * Heap).

#[global] Instance M_ret : MRet M := fun _ a h => Ok (a, h).
#[global] Instance M_bind : MBind M := fun _ _ f m h =>
  match m h with
  | Ok (a, h') => f a h'
  | Raise e => Raise e
  end.

Definition lift {A} (r : result A) : M A := fun h =>
  match r with
  | Ok a => Ok (a, h)
  | Raise e => Raise e
  end.

Definition load (l : loc) : M Cell := fun h =>
  match h !! l with
  | Some c => Ok (c, h)
  | None => Raise DanglingReference
  end.

Definition alloc (c : Cell) : M loc := fun h =>
  let l := fresh (dom h) in Ok (l, <[l := c]> h).

Definition store (l : loc) (c : Cell) : M unit := fun h =>
  match h !! l with
  | Some _ => Ok (tt, <[l := c]> h)
  | None => Raise DanglingReference
  end.

(** [node.selection_set] (its [selections], or [None]) *)
Definition cell_selection_set (c : Cell) : result (option (list loc)) :=
  match c with
  | FieldCell _ _ _ _ ss => Ok ss
  | InlineFragmentCell _ _ ss => Ok ss
  | OperationDefinitionCell _ _ _ ss => Ok ss
  | _ => Raise AttributeError
  end.

(** [node.directives] *)
Definition cell_directives (c : Cell) : result (list DirectiveNode) :=
  match c with
  | FieldCell _ _ _ ds _ => Ok ds
  | InlineFragmentCell _ ds _ => Ok ds
  | OperationDefinitionCell _ _ ds _ => Ok ds
  | FragmentSpreadCell _ ds => Ok ds
  | _ => Raise AttributeError
  end.

Definition cell_with_directives (c : Cell) (ds : list DirectiveNode) : Cell :=
  match c with
  | FieldCell a nm args _ ss => FieldCell a nm args ds ss
  | InlineFragmentCell tc _ ss => InlineFragmentCell tc ds ss
  | OperationDefinitionCell op nm _ ss => OperationDefinitionCell op nm ds ss
  | FragmentSpreadCell nm _ => FragmentSpreadCell nm ds
  | _ => c
  end.

Definition cell_with_selections (c : Cell) (sels : list loc) : Cell :=
  match c with
  | FieldCell a nm args ds _ => FieldCell a nm args ds (Some sels)
  | InlineFragmentCell tc ds _ => InlineFragmentCell tc ds (Some sels)
  | OperationDefinitionCell op nm ds _ => OperationDefinitionCell op nm ds (Some sels)
  | _ => c
  end.

(** [isinstance(query_ast, (FieldNode, InlineFragmentNode, OperationDefinitionNode))] *)
Definition is_selection_capable (c : Cell) : bool :=
  match c with
  | FieldCell _ _ _ _ _ | InlineFragmentCell _ _ _
  | OperationDefinitionCell _ _ _ _ => true
  | _ => false
  end.

(** [copy(obj)]: a new object with the same attributes *)
Definition copy (l : loc) : M loc :=
  c ← load l; alloc c.

(** [obj.directives = ds] *)
Definition set_directives (l : loc) (ds : list DirectiveNode) : M unit :=
  c ← load l; store l (cell_with_directives c ds).

(** [obj.selection_set = SelectionSetNode(selections=sels)] *)
Definition set_selection_set (l : loc) (sels : list loc) : M unit :=
  c ← load l; store l (cell_with_selections c sels).

(** [dictionary.items()], [dictionary.keys()] *)
Definition load_dict (l : loc) : M (gmap string Literal) :=
  c ← load l;
  match c with
  | DictCell items => mret items
  | _ => lift (Raise AttributeError)
  end.

(** [ast_manipulation] on objects of the store: [get_ast_field_name] reads
    the attributes of the node it is given, [get_only_query_definition] reads
    the store; neither assigns. *)
Class AstManipulation : Type := {
  get_ast_field_name : Cell -> result string;
  get_only_query_definition : Heap -> loc -> result loc
}.

Section Parameterizer.
Context {CH : CompilerHelpers} {SAM : AstManipulation}.

(** The loop over the selections of the target vertex. *)
Fixpoint filter_target_selections (pagination_field : string)
    (directive_to_add : DirectiveNode) (selections : list loc)
    : M (list loc * list string * bool) :=
  match selections with
  | [] => mret ([], [], false)
  | selection_ast :: rest =>
      selection_cell ← load selection_ast;
      field_name ← lift (get_ast_field_name selection_cell);
      if decide (field_name = pagination_field) then
        new_selection_ast ← copy selection_ast;
        directives ← lift (cell_directives selection_cell);
        set_directives new_selection_ast directives;;
        '(new_directives, removed) ←
          lift (prune_directives directive_to_add directives);
        set_directives new_selection_ast (new_directives ++ [directive_to_add]);;
        '(new_selections, removed_rest, _) ←
          filter_target_selections pagination_field directive_to_add rest;
        mret (new_selection_ast :: new_selections, removed ++ removed_rest, true)
      else
        '(new_selections, removed_rest, found_field) ←
          filter_target_selections pagination_field directive_to_add rest;
        mret (selection_ast :: new_selections, removed_rest, found_field)
  end.

(** The loop over the selections of a vertex above the target. *)
Fixpoint descend_selections (recurse : loc -> M (loc * list string))
    (segment : string) (selections : list loc)
    : M (list loc * list string * bool) :=
  match selections with
  | [] => mret ([], [], false)
  | selection_ast :: rest =>
      selection_cell ← load selection_ast;
      field_name ← lift (get_ast_field_name selection_cell);
      if decide (field_name = segment) then
        '(new_selection_ast, sub_removed_parameters) ← recurse selection_ast;
        '(new_selections, removed_rest, _) ←
          descend_selections recurse segment rest;
        mret (new_selection_ast :: new_selections,
              sub_removed_parameters ++ removed_rest, true)
      else
        '(new_selections, removed_rest, found_field) ←
          descend_selections recurse segment rest;
        mret (selection_ast :: new_selections, removed_rest, found_field)
  end.

(** [FieldNode(name=NameNode(value=pagination_field), directives=[directive_to_add])] *)
Definition new_filter_selection (pagination_field : string)
    (directive_to_add : DirectiveNode) : Cell :=
  FieldCell None pagination_field None [directive_to_add] None.

(** [new_ast = copy(query_ast); new_ast.selection_set = SelectionSetNode(...)] *)
Definition rebuild (query_ast : loc) (new_selections : list loc) : M loc :=
  new_ast ← copy query_ast;
  set_selection_set new_ast new_selections;;
  mret new_ast.

Fixpoint _add_pagination_filter (query_ast : loc) (query_path : list string)
    (pagination_field : string) (directive_to_add : DirectiveNode)
    {struct query_path} : M (loc * list string) :=
  query_cell ← load query_ast;
  if negb (is_selection_capable query_cell) then lift (Raise AssertionError)
  else
    selection_set ← lift (cell_selection_set query_cell);
    match query_path with
    | [] =>
        match selection_set with
        | None => lift (Raise AttributeError)
        | Some selections =>
            '(new_selections, removed_parameters, found_field) ←
              filter_target_selections pagination_field directive_to_add selections;
            new_selections ←
              (if found_field : bool then mret new_selections
               else
                 new_selection ←
                   alloc (new_filter_selection pagination_field directive_to_add);
                 mret (new_selection :: new_selections));
            new_ast ← rebuild query_ast new_selections;
            mret (new_ast, removed_parameters)
        end
    | segment :: query_path' =>
        match selection_set with
        | None => lift (Raise AssertionError)
        | Some selections =>
            '(new_selections, removed_parameters, found_field) ←
              descend_selections
                (fun selection_ast =>
                   _add_pagination_filter selection_ast query_path'
                     pagination_field directive_to_add)
                segment selections;
            if found_field : bool then
              new_ast ← rebuild query_ast new_selections;
              mret (new_ast, removed_parameters)
            else lift (Raise AssertionError)
        end
    end.

(** [schema_info] is never read. *)
Definition generate_parameterized_queries {SchemaInfoT : Type}
    (schema_info : SchemaInfoT) (query : ASTWithParameters)
    (vertex_partition : VertexPartitionPlan)
    : M (ASTWithParameters * ASTWithParameters * string) :=
  query_type ← (fun h => lift (get_only_query_definition h (query_ast query)) h);
  taken_names ← load_dict (parameters query);
  match _generate_new_name "__paged_param" (dom taken_names) with
  | None => lift (Raise OutOfFuel)
  | Some param_name =>
      '(next_page_root, next_page_removed_parameters) ←
        _add_pagination_filter query_type (query_path vertex_partition)
          (pagination_field vertex_partition)
          (_make_binary_filter_directive_node "<" param_name);
      '(remainder_root, remainder_removed_parameters) ←
        _add_pagination_filter query_type (query_path vertex_partition)
          (pagination_field vertex_partition)
          (_make_binary_filter_directive_node ">=" param_name);
      page_items ← load_dict (parameters query);
      page_parameters ←
        alloc (DictCell (prune_parameters page_items next_page_removed_parameters));
      remainder_items ← load_dict (parameters query);
      remainder_parameters ←
        alloc (DictCell (prune_parameters remainder_items remainder_removed_parameters));
      next_page_ast ← alloc (DocumentCell [next_page_root]);
      remainder_ast ← alloc (DocumentCell [remainder_root]);
      mret (mkASTWithParameters next_page_ast page_parameters,
            mkASTWithParameters remainder_ast remainder_parameters,
            param_name)
  end.

(** *** Vocabulary of the frame property

    [h0] is the store before the rewrite and [h] the store after it. *)

(** What became of one selection of the target vertex: a selection on the
    pagination field is a new object that differs from the old one in its
    directives only; any other selection is the old object itself. *)
Definition shared_selection (h0 h : Heap) (pagination_field : string)
    (directive_to_add : DirectiveNode) (s s' : loc) : Prop :=
  exists c,
    h !! s = Some c /\
    if decide (get_ast_field_name c = Ok pagination_field) then
      h0 !! s' = None /\
      exists directives kept removed,
        cell_directives c = Ok directives /\
        prune_directives directive_to_add directives = Ok (kept, removed) /\
        h !! s' = Some (cell_with_directives c (kept ++ [directive_to_add]))
    else s' = s.

(** The selections of the target vertex. *)
Definition shared_target (h0 h : Heap) (pagination_field : string)
    (directive_to_add : DirectiveNode) (sels sels' : list loc) : Prop :=
  Forall2 (shared_selection h0 h pagination_field directive_to_add) sels sels'
  \/ exists new_selection,
       h0 !! new_selection = None /\
       h !! new_selection =
         Some (new_filter_selection pagination_field directive_to_add) /\
       sels' = new_selection :: sels.

(** [rebuilt h0 h path field d l l']: [l'] is a new object that differs from
    [l] in its selections only; a selection off the path is the old object
    itself, a selection on the path is rebuilt in the same way. *)
Fixpoint rebuilt (h0 h : Heap) (path : list string) (pagination_field : string)
    (directive_to_add : DirectiveNode) (l l' : loc) {struct path} : Prop :=
  h0 !! l' = None /\
  exists c sels sels',
    h !! l = Some c /\
    cell_selection_set c = Ok (Some sels) /\
    h !! l' = Some (cell_with_selections c sels') /\
    match path with
    | [] => shared_target h0 h pagination_field directive_to_add sels sels'
    | segment :: path' =>
        Forall2
          (fun s s' =>
             exists cs,
               h !! s = Some cs /\
               if decide (get_ast_field_name cs = Ok segment)
               then rebuilt h0 h path' pagination_field directive_to_add s s'
               else s' = s)
          sels sels'
    end.

End Parameterizer.

(** *** Trees in the store *)

(** The object of a node whose selections are the objects [selections]. *)
Definition cell_of (t : Node) (selections : option (list loc)) : Cell :=
  match t with
  | FieldNode a nm args ds _ => FieldCell a nm args ds selections
  | InlineFragmentNode tc ds _ => InlineFragmentCell tc ds selections
  | OperationDefinitionNode op nm ds _ =>
      OperationDefinitionCell op nm ds selections
  | FragmentSpreadNode nm ds => FragmentSpreadCell nm ds
  end.

(** [represents h l t]: the objects reached from [l] in the store [h] make up
    the tree [t]. *)
Inductive represents (h : Heap) : loc -> Node -> Prop :=
| represents_node l t selections :
    h !! l = Some (cell_of t selections) ->
    option_Forall2 (Forall2 (represents h)) selections (selection_set_of t) ->
    represents h l t.

End Store.

(** ** Instances of the helpers, for the examples *)

(** Modelled from the spec: [compiler.helpers.get_parameter_name] is not among
    the sources. A filter refers to its parameter as ["$" + name] (see
    [_make_binary_filter_directive_node]); the "associated parameter name" of
    the spec is the text after that sign. *)
Definition example_get_parameter_name (argument : string) : result string :=
  match argument with
  | String c name => if decide (c = "$"%char) then Ok name else Raise AssertionError
  | EmptyString => Raise IndexError
  end.

(** Modelled from the spec: [ast_manipulation.get_ast_field_name] is not among
    the sources. The spec speaks of "the child selection whose field name
    matches"; the instance reads the name of a field selection. *)
Definition example_get_ast_field_name (ast : Node) : result string :=
  match ast with
  | FieldNode _ name _ _ _ => Ok name
  | _ => Raise AttributeError
  end.

(** Modelled from the spec: [ast_manipulation.get_only_query_definition] is
    not among the sources; the instance returns the single query operation of
    a document, the "operation root" of the spec. *)
Definition example_get_only_query_definition (document_ast : DocumentNode)
    : result Node :=
  match definitions document_ast with
  | [OperationDefinitionNode QUERY name ds ss] =>
      Ok (OperationDefinitionNode QUERY name ds ss)
  | _ => Raise GraphQLError
  end.

Definition example_compiler_helpers : CompilerHelpers :=
  {| get_parameter_name := example_get_parameter_name |}.

Definition example_ast_manipulation : AstManipulation :=
  {| get_ast_field_name := example_get_ast_field_name;
     get_only_query_definition := example_get_only_query_definition |}.

(** The same two helpers on the objects of a store. *)
Definition example_store_get_ast_field_name (ast : Store.Cell) : result string :=
  match ast with
  | Store.FieldCell _ name _ _ _ => Ok name
  | _ => Raise AttributeError
  end.

Definition example_store_get_only_query_definition (h : Store.Heap)
    (document_ast : Store.loc) : result Store.loc :=
  match h !! document_ast with
  | Some (Store.DocumentCell [definition_ast]) =>
      match h !! definition_ast with
      | Some (Store.OperationDefinitionCell QUERY _ _ _) => Ok definition_ast
      | _ => Raise GraphQLError
      end
  | _ => Raise GraphQLError
  end.

Definition example_store_ast_manipulation : Store.AstManipulation :=
  {| Store.get_ast_field_name := example_store_get_ast_field_name;
     Store.get_only_query_definition := example_store_get_only_query_definition |}.

(** ** Example data *)

Definition output_directive (out_name : string) : DirectiveNode :=
  mkDirectiveNode "output" [mkArgumentNode "out_name" (StringValueNode out_name)].

(** [{ Animal { name @output(out_name: "animal") } }] *)
Definition example_plain_root : Node :=
  OperationDefinitionNode QUERY None []
    (Some [FieldNode None "Animal" (Some []) []
             (Some [FieldNode None "name" (Some []) [output_directive "animal"]
                      None])]).

Definition example_plain_query : ASTWithParameters :=
  mkASTWithParameters (mkDocumentNode [example_plain_root]) ∅.

(** [{ Animal { uuid @filter(op_name: "<", value: ["$old"])
                     @filter(op_name: ">=", value: ["$low"])
                name @output(out_name: "animal") } }] *)
Definition example_filtered_vertex : Node :=
  FieldNode None "Animal" (Some []) []
    (Some [FieldNode None "uuid" (Some [])
             [_make_binary_filter_directive_node "<" "old";
              _make_binary_filter_directive_node ">=" "low"] None;
           FieldNode None "name" (Some []) [output_directive "animal"] None]).

Definition example_filtered_root : Node :=
  OperationDefinitionNode QUERY None [] (Some [example_filtered_vertex]).

Definition example_filtered_query : ASTWithParameters :=
  mkASTWithParameters (mkDocumentNode [example_filtered_root])
    {[ "old" := LitStr "c0000000-0000-0000-0000-000000000000";
       "low" := LitStr "40000000-0000-0000-0000-000000000000" ]}.

(** [{ Animal { uuid @filter(value: ["$low"], op_name: ">=")
                name @output(out_name: "animal") } }]: the arguments of
    the filter are written value first. *)
Definition example_value_first_vertex : Node :=
  FieldNode None "Animal" (Some []) []
    (Some [FieldNode None "uuid" (Some [])
             [mkDirectiveNode "filter"
                [mkArgumentNode "value"
                   (ListValueNode [StringValueNode "$low"]);
                 mkArgumentNode "op_name" (StringValueNode ">=")]] None;
           FieldNode None "name" (Some []) [output_directive "animal"] None]).

Definition example_value_first_root : Node :=
  OperationDefinitionNode QUERY None [] (Some [example_value_first_vertex]).

Definition example_partition : VertexPartitionPlan :=
  mkVertexPartitionPlan ["Animal"] "uuid" 4.

Definition example_boundary : Literal :=
  LitStr "80000000-0000-0000-0000-000000000000".

(** Collaborators for the examples; the schema reference selects the plan:
    0 declines with an advisory, 1 and 3 partition the root vertex (3 without
    statistics, so that no boundary is generated), any other number asks for
    two partitions. *)
Definition example_get_pagination_plan (query_analysis : QueryPlanningAnalysis)
    (number_of_pages : Z) : PaginationPlan * list PaginationAdvisory :=
  match schema_info query_analysis with
  | SchemaInfoRef 0 =>
      (mkPaginationPlan [], [mkPaginationAdvisory "no pagination key"])
  | SchemaInfoRef 1 | SchemaInfoRef 3 =>
      (mkPaginationPlan [mkVertexPartitionPlan ["Animal"] "uuid" number_of_pages],
       [])
  | SchemaInfoRef _ =>
      (mkPaginationPlan [example_partition; example_partition], [])
  end.

Definition example_generate_parameters (schema : QueryPlanningSchemaInfo)
    (query : ASTWithParameters) (vertex_partition : VertexPartitionPlan)
    : list Literal :=
  match schema with
  | SchemaInfoRef 1 =>
      [LitStr "40000000-0000-0000-0000-000000000000"; example_boundary;
       LitStr "c0000000-0000-0000-0000-000000000000"]
  | _ => []
  end.

Definition example_collaborators : Collaborators :=
  {| get_pagination_plan := example_get_pagination_plan;
     generate_parameters_for_vertex_partition := example_generate_parameters |}.

Definition example_analysis (schema : nat) (cardinality : Q)
    : QueryPlanningAnalysis :=
  mkQueryPlanningAnalysis (SchemaInfoRef schema) example_plain_query
    (mkQueryStringWithParameters
       "{ Animal { name @output(out_name: 'animal') } }" ∅)
    cardinality.

(** The filtered example query as objects of a store: the document at 1, its
    operation at 2, the vertex [Animal] at 3, its selections at 4 and 5, the
    parameter dictionary at 6. *)
Definition example_store : Store.Heap :=
  {[ 1%positive := Store.DocumentCell [2%positive];
     2%positive :=
       Store.OperationDefinitionCell QUERY None [] (Some [3%positive]);
     3%positive :=
       Store.FieldCell None "Animal" (Some []) []
         (Some [4%positive; 5%positive]);
     4%positive :=
       Store.FieldCell None "uuid" (Some [])
         [_make_binary_filter_directive_node "<" "old";
          _make_binary_filter_directive_node ">=" "low"] None;
     5%positive :=
       Store.FieldCell None "name" (Some []) [output_directive "animal"] None;
     6%positive := Store.DictCell (parameters example_filtered_query) ]}.

Definition example_store_query : Store.ASTWithParameters :=
  Store.mkASTWithParameters 1%positive 6%positive.

(** ** The entry point on query text ([__init__.py]) *)

(** The collaborators [cost_estimation.analysis.analyze_query_string], which
    parses and analyzes and may raise, and
    [graphql.language.printer.print_ast]. *)
Class TextCollaborators : Type := {
  analyze_query_string :
    QueryPlanningSchemaInfo -> QueryStringWithParameters ->
    result QueryPlanningAnalysis;
  print_ast : DocumentNode -> string
}.

Section TextOrchestrator.
Context {CH : CompilerHelpers} {AM : AstManipulation} {CO : Collaborators}
  {TC : TextCollaborators}.

Definition paginate_query (schema_info : QueryPlanningSchemaInfo)
    (query : QueryStringWithParameters) (page_size : Z)
    : result (PageAndRemainder QueryStringWithParameters *
              list PaginationAdvisory) :=
  query_analysis ← analyze_query_string schema_info query;
  '(ast_page_and_remainder, advisories) ←
    paginate_query_ast query_analysis page_size;
  let page_query_with_parameters :=
    mkQueryStringWithParameters
      (print_ast (query_ast (one_page ast_page_and_remainder)))
      (parameters (one_page ast_page_and_remainder)) in
  let remainder_queries_with_parameters :=
    (fun query =>
       mkQueryStringWithParameters (print_ast (query_ast query))
         (parameters query))
    <$> remainder ast_page_and_remainder in
  let text_page_and_remainder :=
    mkPageAndRemainder query page_size page_query_with_parameters
      remainder_queries_with_parameters in
  Ok (text_page_and_remainder, advisories).

End TextOrchestrator.

(** Text collaborators for the examples: the analysis of the plain example
    under the schema of the given reference, with 1000 rows estimated; a
    printer that tells an empty document from any other. *)
Definition example_text_collaborators : TextCollaborators :=
  {| analyze_query_string := fun schema query =>
       match schema with
       | SchemaInfoRef n =>
           Ok (mkQueryPlanningAnalysis (SchemaInfoRef n) example_plain_query
                 query (inject_Z 1000))
       end;
     print_ast := fun document =>
       match definitions document with
       | [] => ""
       | _ => "{ Animal { name @output(out_name: 'animal') } }"
       end |}.

(** ** The store against the trees *)

(** The result of a rewrite of the store against the result of the rewrite
    of the tree. *)
Definition simulates (h : Store.Heap) (pure : result (Node * list string))
    (run : result (Store.loc * list string * Store.Heap)) : Prop :=
  match pure with
  | Ok (t', removed) =>
      exists l' h',
        run = Ok ((l', removed), h') /\ h ⊆ h' /\ Store.represents h' l' t'
  | Raise e => run = Raise e
  end.

(** The result of a loop of the store against the result of the loop on
    trees. *)
Definition loop_simulates (h : Store.Heap)
    (pure : result (list Node * list string * bool))
    (run : result (list Store.loc * list string * bool * Store.Heap)) : Prop :=
  match pure with
  | Ok (sels', removed, found) =>
      exists ls' h',
        run = Ok ((ls', removed, found), h') /\ h ⊆ h' /\
        Forall2 (Store.represents h') ls' sels'
  | Raise e => run = Raise e
  end.

(** ** Parameter conversion of the integration tests
       ([tests/integration_tests/integration_test_helpers.py]) *)

(** A [decimal.Decimal]: coefficient and exponent. *)
Record Decimal : Set := mkDecimal {
  coefficient : Z;
  exponent : Z
}.

(** The Python values a query parameter may hold. *)
Inductive PyValue : Set :=
| PyNone
| PyBool (b : bool)
| PyInt (z : Z)
| PyStr (s : string)
| PyDecimal (d : Decimal)
| PyList (items : list PyValue)
| PyTuple (items : list PyValue).

(** [str] on a [Decimal], of the [decimal] module. *)
Class DecimalStr : Type := {
  decimal_str : Decimal -> string
}.

Section DecimalConversion.
Context {DS : DecimalStr}.

Fixpoint try_convert_decimal_to_string (value : PyValue) : PyValue :=
  match value with
  | PyList subvalues => PyList (map try_convert_decimal_to_string subvalues)
  | PyDecimal d => PyStr (decimal_str d)
  | _ => value
  end.

End DecimalConversion.

(** No [Decimal] stands in the value itself or in a list within it, at any
    depth of lists. *)
Fixpoint no_decimal_in_lists (value : PyValue) : Prop :=
  match value with
  | PyDecimal _ => False
  | PyList subvalues =>
      (fix all (l : list PyValue) : Prop :=
         match l with
         | [] => True
         | x :: l' => no_decimal_in_lists x /\ all l'
         end) subvalues
  | _ => True
  end.

(** A rendering of decimals for the examples: the coefficient alone when
    the exponent is 0. *)
Definition example_decimal_str : DecimalStr :=
  {| decimal_str := fun d =>
       if exponent d =? 0 then pretty (coefficient d)
       else pretty (coefficient d) +:+ "E" +:+ pretty (exponent d) |}.

(** * Properties *)

(** ** The result monad *)

Lemma bind_Ok {A B} (m : result A) (k : A -> result B) (b : B) :
  m ≫= k = Ok b <-> exists a, m = Ok a /\ k a = Ok b.
Proof.
  destruct m as [a | e]; simpl; split.
  - intros Hk. by exists a.
  - by intros (a' & [= <-] & Hk).
  - done.
  - by intros (a' & Ha & _).
Qed.

Ltac inv_bind H :=
  let a := fresh "a" in
  let Ha := fresh "Ha" in
  apply bind_Ok in H; destruct H as (a & Ha & H).

(** ** The Boundary Estimator in exact arithmetic *)

Lemma Qneg_true c : Qneg c = true <-> (c < 0)%Q.
Proof.
  unfold Qneg. rewrite negb_true_iff, <- not_true_iff_false, Qle_bool_iff.
  split; [apply Qnot_le_lt | apply Qlt_not_le].
Qed.

Lemma Qneg_false c : Qneg c = false <-> (0 <= c)%Q.
Proof. unfold Qneg. rewrite negb_false_iff. apply Qle_bool_iff. Qed.

Lemma inject_Z_pos_neq0 (p : Z) : 1 <= p -> ~ (inject_Z p == 0)%Q.
Proof. intros Hp H. unfold Qeq in H. simpl in H. lia. Qed.


Lemma floordiv_integer (n p : Z) :
  1 <= p -> floordiv (inject_Z n) p = (n + p - 1) / p.
Proof.
  intros Hp. unfold floordiv. rewrite Zdiv_Qdiv. apply Qfloor_comp.
  unfold Z.sub. rewrite !inject_Z_plus, inject_Z_opp.
  field. by apply inject_Z_pos_neq0.
Qed.

Lemma ceil_pages_integer (n p : Z) :
  1 <= p -> ceil_pages (inject_Z n) p = Z.max 1 (- ((- n) / p)).
Proof.
  intros Hp. unfold ceil_pages, Qceiling. do 2 f_equal.
  rewrite Zdiv_Qdiv. apply Qfloor_comp. rewrite inject_Z_opp.
  field. by apply inject_Z_pos_neq0.
Qed.

(** In exact arithmetic, on a cardinality that is a whole number, not
    negative, and a page size of at least 1 the formula does round up: the
    result is [max(1, ceil(c / p))]. *)
Lemma estimate_number_of_pages_integer {QueryT} (query : QueryT) (n p : Z) :
  0 <= n -> 1 <= p ->
  _estimate_number_of_pages query (inject_Z n) p = Ok (ceil_pages (inject_Z n) p).
Proof.
  intros Hn Hp. unfold _estimate_number_of_pages.
  destruct (Z.ltb_spec p 1); [lia |].
  replace (Qneg (inject_Z n)) with false.
  2:{ symmetry. apply Qneg_false. change 0%Q with (inject_Z 0).
      rewrite <- Zle_Qle. lia. }
  rewrite floordiv_integer, ceil_pages_integer by done.
  destruct (Z.eqb_spec ((n + p - 1) / p) 0) as [E | E]; f_equal;
    Z.to_euclidean_division_equations; nia.
Qed.

(** Scenario 1 of the spec: cardinality 1000, page size 1. *)
Example estimate_number_of_pages_1000 {QueryT} (query : QueryT) :
  _estimate_number_of_pages query (inject_Z 1000) 1 = Ok 1000.
Proof. reflexivity. Qed.

(** C3. The estimator is announced to return [max(1, ceil(c / p))] for every
    cardinality [c >= 0]; on the cardinality 1.5 and the page size 1 the
    formula [(c + p - 1) // p] gives 1, where the quotient rounded up is 2. *)
Theorem estimate_number_of_pages_not_ceiling :
  _estimate_number_of_pages tt (3 # 2)%Q 1 = Ok 1 /\
  ceil_pages (3 # 2)%Q 1 = 2.
Proof. split; reflexivity. Qed.


(** ** The Boundary Estimator on floats

    The facts hold for every rounding with the laws [Float.RoundingLaws];
    exact arithmetic is one such rounding and serves for the instances. *)

Lemma exact_rounding_laws : Float.RoundingLaws Float.exact_rounding.
Proof.
  split; simpl.
  - done.
  - intros a b Hab. exact Hab.
  - reflexivity.
  - reflexivity.
  - intros q r [= ->]. reflexivity.
  - intros q r _. eexists. reflexivity.
Qed.

Section FloatFacts.
Import Float.
Context {R : Rounding} {RL : RoundingLaws R}.

Lemma Qle_bool_false (a b : Q) : Qle_bool a b = false <-> (b < a)%Q.
Proof.
  split.
  - intros H. apply Qnot_le_lt. intros Hle. apply Qle_bool_iff in Hle. congruence.
  - intros H. destruct (Qle_bool a b) eqn:E; [|done].
    apply Qle_bool_iff in E. lra.
Qed.

Lemma round_lower (a a' q : Q) :
  (a <= q)%Q -> round a = Fin a' ->
  round q = Inf false \/ exists r, round q = Fin r /\ (a' <= r)%Q.
Proof.
  intros Hle Ha. pose proof (round_monotone a q Hle) as Hm.
  rewrite Ha in Hm. destruct (round q) as [|[]|r] eqn:E; simpl in Hm; try done.
  - by left.
  - right. by exists r.
Qed.

Lemma round_between (a a' b b' q : Q) :
  (a <= q)%Q -> (q <= b)%Q -> round a = Fin a' -> round b = Fin b' ->
  exists r, round q = Fin r /\ (a' <= r)%Q /\ (r <= b')%Q.
Proof.
  intros Hl Hu Ha Hb.
  pose proof (round_monotone q b Hu) as Hm. rewrite Hb in Hm.
  destruct (round_lower a a' q Hl Ha) as [E|(r & E & Hr)]; rewrite E in Hm;
    simpl in Hm; [done|].
  exists r. done.
Qed.

Lemma Qdiv_bounds (x f : Q) :
  (0 <= x)%Q -> (1 <= f)%Q -> (0 <= x / f)%Q /\ (x / f <= x)%Q /\ (f * (x / f) == x)%Q.
Proof.
  intros Hx Hf.
  assert (Hm : (f * (x / f) == x)%Q) by (apply Qmult_div_r; lra).
  assert (H0 : (0 <= x / f)%Q).
  { apply Qle_shift_div_l; lra. }
  split; [done|]. split; [|done]. nra.
Qed.

Lemma Qtrunc_nonneg (q : Q) : (0 <= q)%Q -> Qtrunc q = Qfloor q.
Proof.
  intros H. unfold Qtrunc. apply Qle_bool_iff in H. by rewrite H.
Qed.

Lemma Qfloor_nonneg (q : Q) : (0 <= q)%Q -> 0 <= Qfloor q.
Proof.
  intros H. apply (Qfloor_resp_le 0 q) in H. exact H.
Qed.

Lemma round_monotone_finite (a b a' b' : Q) :
  (a <= b)%Q -> round a = Fin a' -> round b = Fin b' -> (a' <= b')%Q.
Proof.
  intros Hab Ha Hb. pose proof (round_monotone a b Hab) as Hm.
  by rewrite Ha, Hb in Hm.
Qed.

(** The quotient before it is snapped: the operands are a float [x] that is
    not negative and a float [f] of at least 1. *)
Lemma float_floor_div_quotient (x f : Q) :
  (0 <= x)%Q -> round x = Fin x -> (1 <= f)%Q ->
  exists u v,
    round (x + - (x - f * inject_Z (Qfloor (x / f)))) = Fin u /\
    round (u / f) = Fin v /\
    (0 <= u)%Q /\ (0 <= v)%Q /\ (v <= x)%Q /\
    float_floor_div (Fin x) (Fin f) = Ok (snap (Fin v)).
Proof.
  intros Hx Hrx Hf.
  assert (Ef : Qeq_bool f 0 = false).
  { destruct (Qeq_bool f 0) eqn:E; [|done]. apply Qeq_bool_eq in E. lra. }
  destruct (Qdiv_bounds x f Hx Hf) as (Hk0 & Hkx & Hk).
  unfold float_floor_div. cbn [is_zero]. rewrite Ef.
  cbn [fmod]. rewrite Ef. rewrite (Qtrunc_nonneg _ Hk0).
  set (n := Qfloor (x / f)).
  assert (Hn0 : 0 <= n) by (by apply Qfloor_nonneg).
  assert (Hnk : (inject_Z n <= x / f)%Q) by apply Qfloor_le.
  set (m := (x - f * inject_Z n)%Q).
  assert (Hn0q : (0 <= inject_Z n)%Q).
  { change 0%Q with (inject_Z 0). by rewrite <- Zle_Qle. }
  assert (Hm0 : (0 <= m)%Q) by (unfold m; nra).
  assert (Hmx : (m <= x)%Q) by (unfold m; nra).
  assert (Ewx : flt (Fin f) (Fin 0) = false).
  { cbn [flt]. assert (Qle_bool 0 f = true) as -> by (apply Qle_bool_iff; lra). done. }
  assert (Emod : flt (Fin m) (Fin 0) = false).
  { cbn [flt]. assert (Qle_bool 0 m = true) as -> by (by apply Qle_bool_iff). done. }
  rewrite Ewx, Emod. cbn [xorb].
  set (quotient := fdiv (fsub (Fin x) (Fin m)) (Fin f)).
  assert (Eq : (if negb (is_zero (Fin m)) then quotient else quotient) = quotient)
    by (by destruct (negb _)).
  rewrite Eq. clear Eq.
  (* the float subtraction [vx - mod] *)
  destruct (round_between 0 0 x x (x + - m)%Q) as (u & Eu & Hu0 & Hux);
    [lra | lra | apply round_zero | exact Hrx |].
  (* the float division by [wx] *)
  destruct (Qdiv_bounds u f Hu0 Hf) as (Hv0 & Hvu & _).
  destruct (round_between 0 0 x x (u / f)%Q) as (v & Ev & Hv0' & Hvx);
    [lra | lra | apply round_zero | exact Hrx |].
  exists u, v. do 5 (split; [done |]).
  unfold quotient, fsub. cbn [fopp fadd]. rewrite Eu. cbn [fdiv].
  by rewrite Ef, Ev.
Qed.

(** Snapping a float [v] that is not negative: the result is 0, the integer
    below [v], or the float of the integer above [v], which is no less
    than [v]. *)
Lemma snap_cases (v : Q) :
  (0 <= v)%Q -> round v = Fin v ->
  let below := inject_Z (Qfloor v) in
  let above := round (below + 1) in
  (v == 0)%Q /\ snap (Fin v) = Fin 0 \/
  ~ (v == 0)%Q /\
  (flt (Fin (1 # 2)) (round (v + - below)) = false /\
   snap (Fin v) = Fin below \/
   flt (Fin (1 # 2)) (round (v + - below)) = true /\
   exists w, above = Fin w /\ snap (Fin v) = Fin w /\ (v <= w)%Q).
Proof.
  intros Hv0 Hrv. cbv zeta. unfold snap. cbn [is_zero floor].
  destruct (Qeq_bool v 0) eqn:Ev0; cbn [negb].
  { left. split; [by apply Qeq_bool_eq | done]. }
  right. split; [by apply Qeq_bool_neq |].
  unfold fsub. cbn [fopp fadd].
  set (below := inject_Z (Qfloor v)).
  destruct (flt (Fin (1 # 2)) (round (v + - below))) eqn:Ehalf; [| by left].
  right. split; [done |].
  pose proof (Qfloor_nonneg v Hv0) as Hfl0.
  pose proof (Qfloor_le v) as Hflv. pose proof (Qlt_floor v) as Hvfl.
  (* the quotient is no integer *)
  assert (Hnot : (below < v)%Q).
  { apply Qnot_le_lt. intros Hle.
    destruct (round_between 0 0 0 0 (v + - below)%Q) as (r & Er & Hr0 & Hr1);
      [unfold below; lra | lra | apply round_zero | apply round_zero |].
    rewrite Er in Ehalf. cbn [flt] in Ehalf.
    assert (Qle_bool r (1 # 2) = true) as E by (apply Qle_bool_iff; lra).
    by rewrite E in Ehalf. }
  assert (Hceil : Qceiling v = Qfloor v + 1).
  { pose proof (Qle_ceiling v) as Hc1. pose proof (Qceiling_lt v) as Hc2.
    unfold below in Hnot.
    assert (inject_Z (Qfloor v) < inject_Z (Qceiling v))%Q as H1 by lra.
    assert (inject_Z (Qceiling v - 1) < inject_Z (Qfloor v + 1))%Q as H2 by lra.
    rewrite <- Zlt_Qlt in H1, H2. lia. }
  destruct (round_ceiling _ _ Hrv) as (c & Ec). rewrite Hceil in Ec.
  assert (Hplus : (inject_Z (Qfloor v + 1) == below + 1)%Q).
  { unfold below. rewrite inject_Z_plus. reflexivity. }
  destruct (round_between v v (inject_Z (Qfloor v + 1)) c (below + 1)%Q)
    as (w & Ew & Hw0 & _); [lra | lra | exact Hrv | exact Ec |].
  exists w. by rewrite Ew.
Qed.

Lemma snap_nonneg (v : Q) :
  (0 <= v)%Q -> round v = Fin v ->
  exists w, snap (Fin v) = Fin w /\ (0 <= w)%Q /\ Qfloor v <= Qfloor w.
Proof.
  intros Hv0 Hrv.
  destruct (snap_cases v Hv0 Hrv)
    as [[Hz ->] | [_ [[_ ->] | (_ & w & _ & -> & Hw)]]].
  - exists 0%Q. split; [done |]. split; [lra |].
    by rewrite (Qfloor_comp _ _ Hz).
  - eexists. split; [done |]. split.
    + change 0%Q with (inject_Z 0). rewrite <- Zle_Qle. by apply Qfloor_nonneg.
    + by rewrite Qfloor_Z.
  - exists w. split; [done |]. split; [lra | by apply Qfloor_resp_le].
Qed.

Lemma float_floor_div_nonneg (x f : Q) :
  (0 <= x)%Q -> round x = Fin x -> (1 <= f)%Q ->
  exists w, float_floor_div (Fin x) (Fin f) = Ok (Fin w) /\ (0 <= w)%Q.
Proof.
  intros Hx Hrx Hf.
  destruct (float_floor_div_quotient x f Hx Hrx Hf)
    as (u & v & _ & Ev & _ & Hv0 & _ & ->).
  destruct (snap_nonneg v Hv0 (round_representable _ _ Ev)) as (w & -> & Hw & _).
  by exists w.
Qed.

Lemma float_of_int_page_size (p : Z) :
  1 <= p ->
  float_of_int p = Raise OverflowError \/
  exists f, float_of_int p = Ok (Fin f) /\ (1 <= f)%Q.
Proof.
  intros Hp. unfold float_of_int.
  assert (Hq : (1 <= inject_Z p)%Q).
  { change 1%Q with (inject_Z 1). by rewrite <- Zle_Qle. }
  destruct (round_lower 1 1 (inject_Z p) Hq round_one) as [E|(r & E & Hr)];
    rewrite E.
  - by left.
  - right. by exists r.
Qed.

Lemma float_floor_div_not_finite (x : float) (f : Q) :
  (1 <= f)%Q -> is_finite x = false ->
  float_floor_div x (Fin f) = Ok NaN.
Proof.
  intros Hf Hx. unfold float_floor_div. cbn [is_zero].
  assert (Ef : Qeq_bool f 0 = false).
  { destruct (Qeq_bool f 0) eqn:E; [|done]. apply Qeq_bool_eq in E. lra. }
  assert (Ewx : flt (Fin f) (Fin 0) = false).
  { cbn [flt]. assert (Qle_bool 0 f = true) as -> by (apply Qle_bool_iff; lra). done. }
  rewrite Ef. destruct x as [|s|q]; [| |done].
  - cbn [fmod is_zero negb]. rewrite Ewx. reflexivity.
  - cbn [fmod is_zero negb]. rewrite Ewx. destruct s; reflexivity.
Qed.

(** The page count on a cardinality that passed both checks. *)
Lemma estimate_number_of_pages_float_cases {QueryT} (query : QueryT)
    (c : float) (p : Z) :
  1 <= p -> flt c (Fin 0) = false ->
  match float_of_int p with
  | Raise _ =>
      _estimate_number_of_pages query c p = Raise OverflowError
  | Ok addend =>
      if is_finite (fadd c addend)
      then exists n, _estimate_number_of_pages query c p = Ok n /\ 1 <= n
      else _estimate_number_of_pages query c p = Raise ValueError
  end.
Proof.
  intros Hp Hc. unfold _estimate_number_of_pages.
  assert ((p <? 1) = false) as -> by lia. rewrite Hc.
  destruct (float_of_int_page_size p Hp) as [E|(f & E & Hf)]; rewrite E;
    [reflexivity|].
  cbn [mbind result_bind].
  destruct (fadd c (Fin f)) as [|s|s'] eqn:Es; cbn [is_finite].
  - rewrite float_floor_div_not_finite by done. reflexivity.
  - rewrite float_floor_div_not_finite by done. reflexivity.
  - (* the sum is a number: it is at least 1 *)
    destruct c as [|sc|x]; [done | by destruct sc |].
    cbn [fadd] in Es. cbn [flt] in Hc.
    assert (Hx : (0 <= x)%Q).
    { apply Qle_bool_iff. by destruct (Qle_bool 0 x). }
    destruct (round_lower 1 1 (x + f)%Q) as [E1|(r & E1 & Hr)];
      [lra | apply round_one | congruence |].
    assert (r = s') as -> by congruence.
    pose proof (round_representable _ _ Es) as Hs.
    unfold fsub. cbn [fopp fadd].
    destruct (round_between 0 0 s' s' (s' + - (1))%Q) as (d & Ed & Hd0 & _);
      [lra | lra | apply round_zero | exact Hs |].
    rewrite Ed.
    destruct (float_floor_div_nonneg d f Hd0 (round_representable _ _ Ed) Hf)
      as (w & Ew & Hw).
    rewrite Ew. cbn [mbind result_bind int_of_float].
    rewrite (Qtrunc_nonneg _ Hw).
    pose proof (Qfloor_nonneg w Hw) as Hn.
    destruct (Qfloor w =? 0) eqn:E0.
    + exists 1. done.
    + exists (Qfloor w). split; [done | lia].
Qed.

Lemma flt_half_monotone (a b : Q) :
  (a <= b)%Q ->
  flt (Fin (1 # 2)) (round a) = true -> flt (Fin (1 # 2)) (round b) = true.
Proof.
  intros Hab Ha. pose proof (round_monotone a b Hab) as Hm.
  destruct (round a) as [| [] | ta]; try done;
    destruct (round b) as [| [] | tb]; try done.
  cbn [flt] in *. simpl in Hm.
  apply negb_true_iff, Qle_bool_false in Ha.
  apply negb_true_iff, Qle_bool_false. lra.
Qed.

(** Snapping is monotone on floats that are not negative. *)
Lemma snap_monotone (v1 v2 w1 w2 : Q) :
  (0 <= v1)%Q -> (v1 <= v2)%Q ->
  round v1 = Fin v1 -> round v2 = Fin v2 ->
  snap (Fin v1) = Fin w1 -> snap (Fin v2) = Fin w2 ->
  Qfloor w1 <= Qfloor w2.
Proof.
  intros Hv1 Hv12 Hr1 Hr2 Hw1 Hw2.
  assert (Hv2 : (0 <= v2)%Q) by lra.
  destruct (snap_nonneg v2 Hv2 Hr2) as (w2' & Hw2' & Hw20 & Hfl2).
  assert (w2' = w2) as -> by congruence.
  pose proof (Qfloor_resp_le _ _ Hv12) as Hfl12.
  destruct (snap_cases v1 Hv1 Hr1)
    as [[Hz E1] | [Hnz [[_ E1] | (Ehalf1 & r1 & Er1 & E1 & Hvr1)]]].
  - assert (w1 = 0%Q) as -> by congruence.
    change (Qfloor 0) with 0. by apply Qfloor_nonneg.
  - assert (w1 = inject_Z (Qfloor v1)) as -> by congruence.
    rewrite Qfloor_Z. lia.
  - assert (r1 = w1) as -> by congruence.
    destruct (Z.eq_dec (Qfloor v1) (Qfloor v2)) as [Heq | Hne].
    + (* the same integer below: the larger float is snapped up as well *)
      destruct (snap_cases v2 Hv2 Hr2)
        as [[Hz E2] | [_ [[Ehalf2 _] | (_ & r2 & Er2 & E2 & _)]]].
      * exfalso. apply Hnz. lra.
      * exfalso. rewrite <- Heq in Ehalf2.
        rewrite (flt_half_monotone (v1 + - inject_Z (Qfloor v1))
                   (v2 + - inject_Z (Qfloor v1))) in Ehalf2; [done | lra | done].
      * rewrite <- Heq in Er2. assert (w1 = w2) as -> by congruence. lia.
    + (* a smaller integer below: the snapped float is at most the larger one *)
      assert (Hlt : (inject_Z (Qfloor v1) + 1 <= v2)%Q).
      { pose proof (Qfloor_le v2) as H2.
        assert (Qfloor v1 + 1 <= Qfloor v2) as H by lia.
        rewrite Zle_Qle, inject_Z_plus in H. change (inject_Z 1) with 1%Q in H.
        lra. }
      pose proof (round_monotone_finite _ _ _ _ Hlt Er1 Hr2) as Hw1v2.
      apply Qfloor_resp_le in Hw1v2. lia.
Qed.

(** The estimate on a cardinality that is not negative, when the sum of
    cardinality and page size is finite. *)
Lemma estimate_number_of_pages_float_value {QueryT} (query : QueryT)
    (x : Q) (p : Z) (f s : Q) :
  1 <= p -> (0 <= x)%Q -> (1 <= f)%Q ->
  float_of_int p = Ok (Fin f) -> round (x + f) = Fin s ->
  exists d u v w,
    round (s + - (1)) = Fin d /\
    round (d + - (d - f * inject_Z (Qfloor (d / f)))) = Fin u /\
    round (u / f) = Fin v /\
    snap (Fin v) = Fin w /\
    (0 <= d)%Q /\ (0 <= u)%Q /\ (0 <= v)%Q /\ (0 <= w)%Q /\
    Float._estimate_number_of_pages query (Fin x) p = Ok (Z.max 1 (Qfloor w)).
Proof.
  intros Hp Hx Hf Hconv Hs. unfold Float._estimate_number_of_pages.
  assert ((p <? 1) = false) as -> by lia.
  cbn [flt]. assert (Qle_bool 0 x = true) as -> by (by apply Qle_bool_iff).
  cbn [negb]. rewrite Hconv. cbn [mbind result_bind fadd]. rewrite Hs.
  destruct (round_lower 1 1 (x + f)%Q) as [E1 | (r & E1 & Hr)];
    [lra | apply round_one | congruence |].
  assert (r = s) as -> by congruence.
  pose proof (round_representable _ _ Hs) as Hrs.
  unfold fsub. cbn [fopp fadd].
  destruct (round_between 0 0 s s (s + - (1))%Q) as (d & Ed & Hd0 & _);
    [lra | lra | apply round_zero | exact Hrs |].
  rewrite Ed.
  destruct (float_floor_div_quotient d f Hd0 (round_representable _ _ Ed) Hf)
    as (u & v & Eu & Ev & Hu0 & Hv0 & _ & ->).
  destruct (snap_nonneg v Hv0 (round_representable _ _ Ev)) as (w & Ew & Hw & _).
  exists d, u, v, w. do 8 (split; [done |]).
  cbn [mbind result_bind]. rewrite Ew. cbn [int_of_float].
  rewrite (Qtrunc_nonneg _ Hw).
  pose proof (Qfloor_nonneg w Hw) as Hn.
  cbn [mbind result_bind].
  destruct (Qfloor w =? 0) eqn:E0; f_equal; lia.
Qed.

Lemma float_of_int_raises (z : Z) e :
  float_of_int z = Raise e -> e = OverflowError.
Proof.
  unfold float_of_int. destruct (round (inject_Z z)); congruence.
Qed.

Lemma fadd_not_finite (x y : float) :
  is_finite x = false -> is_finite (fadd x y) = false.
Proof.
  destruct x as [| s |]; [done | | done]. intros _.
  destruct y as [| s' |]; [done | | done].
  simpl. by destruct (Bool.eqb s s').
Qed.

(** C9, as the code has it. With a page size below 1 the estimator raises
    [ValueError], whatever the cardinality. With a page size of at least 1
    it raises [AssertionError] exactly when the cardinality is below
    [0.0]. Otherwise the page size is converted to a float: that raises
    [OverflowError] when it is out of the range of floats; when the sum of
    cardinality and page size is no finite float (the cardinality is not a
    number or infinite, or the sum overflows) the conversion of the
    quotient to [int] raises [ValueError]; in every remaining case the
    estimator returns an integer of at least 1. *)
Theorem estimate_number_of_pages_float_failures {QueryT} (query : QueryT)
    (result_size : float) (page_size : Z) :
  let outcome := Float._estimate_number_of_pages query result_size page_size in
  let negative := flt result_size (Fin 0) in
  (page_size < 1 -> outcome = Raise ValueError) /\
  (outcome = Raise AssertionError <-> 1 <= page_size /\ negative = true) /\
  (outcome = Raise OverflowError <->
     1 <= page_size /\ negative = false /\
     float_of_int page_size = Raise OverflowError) /\
  (outcome = Raise ValueError <->
     page_size < 1 \/
     negative = false /\
     exists addend,
       float_of_int page_size = Ok addend /\
       is_finite (fadd result_size addend) = false) /\
  ((exists n, outcome = Ok n) <->
     1 <= page_size /\ negative = false /\
     exists addend,
       float_of_int page_size = Ok addend /\
       is_finite (fadd result_size addend) = true) /\
  (forall n, outcome = Ok n -> 1 <= n) /\
  (is_finite result_size = false -> forall n, outcome <> Ok n).
Proof.
  intros outcome negative.
  destruct (Z.ltb_spec page_size 1) as [Hp | Hp].
  { assert (Hv : outcome = Raise ValueError).
    { unfold outcome, Float._estimate_number_of_pages.
      by assert ((page_size <? 1) = true) as -> by lia. }
    rewrite Hv. repeat split; naive_solver lia. }
  destruct negative eqn:Hneg.
  { assert (Hv : outcome = Raise AssertionError).
    { unfold outcome, Float._estimate_number_of_pages.
      assert ((page_size <? 1) = false) as -> by lia.
      fold negative. by rewrite Hneg. }
    rewrite Hv. repeat split; naive_solver lia. }
  pose proof (estimate_number_of_pages_float_cases query result_size page_size
                Hp Hneg) as Hcases.
  fold outcome in Hcases.
  destruct (float_of_int page_size) as [addend | e] eqn:Hconv.
  - destruct (is_finite (fadd result_size addend)) eqn:Hsum.
    + destruct Hcases as (n & Hn & Hn1). rewrite Hn.
      pose proof (fadd_not_finite result_size addend) as Hnf.
      repeat split; try naive_solver lia.
      * intros [? | (_ & a & [= <-] & Ha)]; [lia | congruence].
      * intros Hx. apply Hnf in Hx. congruence.
    + rewrite Hcases. repeat split; try naive_solver lia.
      intros (_ & _ & a & [= <-] & Ha). congruence.
  - apply float_of_int_raises in Hconv as He. subst e.
    rewrite Hcases. repeat split; try naive_solver lia.
Qed.

Lemma Qdiv_le_compat (a b f : Q) :
  (a <= b)%Q -> (1 <= f)%Q -> (a / f <= b / f)%Q.
Proof.
  intros Hab Hf. unfold Qdiv. apply Qmult_le_compat_r; [done |].
  apply Qinv_le_0_compat. lra.
Qed.

(** When the estimator returns, the cardinality is a number that is not
    negative, and its sum with the page size is finite. *)
Lemma estimate_number_of_pages_float_returns {QueryT} (query : QueryT)
    (c : float) (p n : Z) :
  Float._estimate_number_of_pages query c p = Ok n ->
  1 <= p /\
  exists x f s,
    c = Fin x /\ (0 <= x)%Q /\ (1 <= f)%Q /\
    float_of_int p = Ok (Fin f) /\ round (x + f) = Fin s.
Proof.
  intros H.
  destruct (Z.ltb_spec p 1) as [Hp | Hp].
  { unfold Float._estimate_number_of_pages in H.
    assert ((p <? 1) = true) as E by lia. by rewrite E in H. }
  split; [done |].
  destruct (flt c (Fin 0)) eqn:Hneg.
  { unfold Float._estimate_number_of_pages in H.
    assert ((p <? 1) = false) as E by lia. by rewrite E, Hneg in H. }
  pose proof (estimate_number_of_pages_float_cases query c p Hp Hneg) as Hcases.
  destruct (float_of_int_page_size p Hp) as [E | (f & E & Hf)];
    rewrite E in Hcases; [congruence |].
  destruct c as [| sc | x]; [simpl in Hcases; congruence | |].
  { destruct sc; [done |]. simpl in Hcases. congruence. }
  cbn [fadd] in Hcases.
  destruct (round (x + f)) as [| s' | s] eqn:Es;
    [simpl in Hcases; congruence | simpl in Hcases; congruence |].
  exists x, f, s. split; [done |]. split; [| done].
  cbn [flt] in Hneg. apply Qle_bool_iff. by destruct (Qle_bool 0 x).
Qed.

(** X3. For a fixed page size, a larger cardinality never gives fewer
    pages: when the estimator returns on both, the page count of the
    smaller cardinality is at most that of the larger one. *)
Theorem estimate_number_of_pages_float_monotone {QueryT} (query : QueryT)
    (c1 c2 : float) (p n1 n2 : Z) :
  fle c1 c2 ->
  Float._estimate_number_of_pages query c1 p = Ok n1 ->
  Float._estimate_number_of_pages query c2 p = Ok n2 ->
  n1 <= n2.
Proof.
  intros Hle H1 H2.
  destruct (estimate_number_of_pages_float_returns query c1 p n1 H1)
    as (Hp & x1 & f & s1 & -> & Hx1 & Hf & Hconv & Hs1).
  destruct (estimate_number_of_pages_float_returns query c2 p n2 H2)
    as (_ & x2 & f' & s2 & -> & Hx2 & _ & Hconv' & Hs2).
  assert (f' = f) as -> by congruence. simpl in Hle.
  destruct (estimate_number_of_pages_float_value query x1 p f s1
              Hp Hx1 Hf Hconv Hs1)
    as (d1 & u1 & v1 & w1 & Ed1 & Eu1 & Ev1 & Ew1 & Hd1 & _ & Hv1 & _ & E1).
  destruct (estimate_number_of_pages_float_value query x2 p f s2
              Hp Hx2 Hf Hconv Hs2)
    as (d2 & u2 & v2 & w2 & Ed2 & Eu2 & Ev2 & Ew2 & Hd2 & _ & Hv2 & _ & E2).
  assert (n1 = Z.max 1 (Qfloor w1)) as -> by congruence.
  assert (n2 = Z.max 1 (Qfloor w2)) as -> by congruence.
  assert (Hs : (s1 <= s2)%Q).
  { apply (round_monotone_finite (x1 + f) (x2 + f)); [lra | done | done]. }
  assert (Hd : (d1 <= d2)%Q).
  { apply (round_monotone_finite (s1 + - (1)) (s2 + - (1))); [lra | done | done]. }
  assert (Hu : (u1 <= u2)%Q).
  { eapply round_monotone_finite; [| exact Eu1 | exact Eu2].
    pose proof (Qfloor_resp_le _ _ (Qdiv_le_compat d1 d2 f Hd Hf)) as Hn.
    rewrite Zle_Qle in Hn.
    set (k1 := inject_Z (Qfloor (d1 / f))) in *.
    set (k2 := inject_Z (Qfloor (d2 / f))) in *.
    clearbody k1 k2. nra. }
  assert (Hv : (v1 <= v2)%Q).
  { eapply round_monotone_finite; [| exact Ev1 | exact Ev2].
    by apply Qdiv_le_compat. }
  pose proof (snap_monotone v1 v2 w1 w2 Hv1 Hv
                (round_representable _ _ Ev1) (round_representable _ _ Ev2)
                Ew1 Ew2).
  lia.
Qed.

Section WholeNumbers.
Context {EI : ExactIntegers R}.

Lemma round_exact (q : Q) (z : Z) :
  (q == inject_Z z)%Q -> 0 <= z <= 2 ^ 53 ->
  exists r, round q = Fin r /\ (r == inject_Z z)%Q.
Proof.
  intros Hq Hz. destruct (round_integer q z Hq) as (r & Er & Hr); [lia |].
  exists r. split; [done |]. by rewrite Hr.
Qed.

(** X1. On a cardinality that is a whole number, not negative, and a page
    size of at least 1 whose sum is at most [2^53], every float operation of
    the formula is exact and the result is the quotient rounded up, at
    least 1. *)
Theorem estimate_number_of_pages_float_integer {QueryT} (query : QueryT)
    (n p : Z) :
  0 <= n -> 1 <= p -> n + p <= 2 ^ 53 ->
  Float._estimate_number_of_pages query (Fin (inject_Z n)) p
  = Ok (ceil_pages (inject_Z n) p).
Proof.
  intros Hn Hp Hsum. unfold ceil_pages.
  assert (Hpq : (1 <= inject_Z p)%Q).
  { change 1%Q with (inject_Z 1). by rewrite <- Zle_Qle. }
  assert (Hnq : (0 <= inject_Z n)%Q).
  { change 0%Q with (inject_Z 0). by rewrite <- Zle_Qle. }
  (* the page size as a float *)
  destruct (round_exact (inject_Z p) p) as (f & Ef & Hf); [reflexivity | lia |].
  assert (Hconv : float_of_int p = Ok (Fin f)).
  { unfold float_of_int. by rewrite Ef. }
  (* the sum *)
  destruct (round_exact (inject_Z n + f) (n + p)) as (s & Es & Hs);
    [rewrite inject_Z_plus, Hf; reflexivity | lia |].
  destruct (estimate_number_of_pages_float_value query (inject_Z n) p f s)
    as (d & u & v & w & Ed & Eu & Ev & Ew & Hd0 & Hu0 & Hv0 & Hw0 & ->);
    [done | done | lra | done | done |].
  f_equal. f_equal.
  set (k := (n + p - 1) / p).
  assert (Hk : 0 <= k /\ p * k <= n + p - 1 /\ n + p - 1 < p * (k + 1)).
  { unfold k. Z.to_euclidean_division_equations. nia. }
  destruct Hk as (Hk0 & Hk1 & Hk2).
  (* the sum less one *)
  destruct (round_exact (s + - (1)) (n + p - 1)) as (d' & Ed' & Hd);
    [| lia |].
  { rewrite Hs. unfold Z.sub. rewrite !inject_Z_plus, inject_Z_opp. reflexivity. }
  assert (d' = d) as -> by congruence.
  assert (Hfloor : Qfloor (d / f) = k).
  { unfold k. rewrite Zdiv_Qdiv. apply Qfloor_comp. by rewrite Hd, Hf. }
  rewrite Hfloor in Eu.
  (* the multiple of the page size below it *)
  destruct (round_exact (d + - (d - f * inject_Z k)) (p * k)) as (u' & Eu' & Hu);
    [| lia |].
  { rewrite inject_Z_mult, Hf. ring. }
  assert (u' = u) as -> by congruence.
  (* the quotient *)
  destruct (round_exact (u / f) k) as (v' & Ev' & Hv); [| lia |].
  { rewrite Hu, Hf, inject_Z_mult. field. lra. }
  assert (v' = v) as -> by congruence.
  assert (Hflv : Qfloor v = k) by (by rewrite (Qfloor_comp _ _ Hv), Qfloor_Z).
  (* snapping changes nothing *)
  assert (Hw : Qfloor w = k).
  { destruct (snap_cases v Hv0 (round_representable _ _ Ev))
      as [[Hz E] | [_ [[_ E] | (Ehalf & _)]]].
    - assert (w = 0%Q) as -> by congruence.
      rewrite <- Hflv, (Qfloor_comp _ _ Hz). reflexivity.
    - assert (w = inject_Z (Qfloor v)) as -> by congruence.
      by rewrite Qfloor_Z.
    - exfalso.
      destruct (round_between 0 0 0 0 (v + - inject_Z (Qfloor v))%Q)
        as (r & Er & Hr0 & Hr1);
        [rewrite Hflv; lra | rewrite Hflv; lra
        | apply round_zero | apply round_zero |].
      rewrite Er in Ehalf. cbn [flt] in Ehalf.
      assert (Qle_bool r (1 # 2) = true) as E by (apply Qle_bool_iff; lra).
      by rewrite E in Ehalf. }
  rewrite Hw.
  (* the quotient rounded up *)
  assert (Hceil : Qceiling (inject_Z n / inject_Z p) = - ((- n) / p)).
  { unfold Qceiling. f_equal. rewrite Zdiv_Qdiv. apply Qfloor_comp.
    rewrite inject_Z_opp. field. lra. }
  rewrite Hceil. unfold k. Z.to_euclidean_division_equations. nia.
Qed.

End WholeNumbers.

End FloatFacts.

(** C9, as stated, fails: with the page size 1 a cardinality that is not a
    number raises [ValueError], though the page size is not below 1 and the
    cardinality is not below [0.0]. *)
Lemma estimate_number_of_pages_nan :
  let outcome :=
    Float._estimate_number_of_pages (R := Float.exact_rounding) tt Float.NaN 1 in
  outcome = Raise ValueError /\
  ~ (outcome = Raise ValueError <-> 1 < 1) /\
  Float.flt Float.NaN (Float.Fin 0) = false /\
  ~ (exists n, outcome = Ok n).
Proof.
  assert (H : Float._estimate_number_of_pages (R := Float.exact_rounding)
                tt Float.NaN 1 = Raise ValueError) by reflexivity.
  cbv zeta. rewrite H. split; [done |]. split; [| split; [done |]].
  - intros [Hv _]. specialize (Hv eq_refl). lia.
  - by intros [n Hn].
Qed.

(** In exact arithmetic: the two checks, a cardinality that is not a number,
    an infinite one, and 3.5 rows in pages of 2. *)
Lemma estimate_number_of_pages_float_failures_witness :
  Float._estimate_number_of_pages (R := Float.exact_rounding)
    tt (Float.Fin (7 # 2)) 0 = Raise ValueError /\
  Float._estimate_number_of_pages (R := Float.exact_rounding)
    tt (Float.Fin (- (7 # 2))) 2 = Raise AssertionError /\
  Float._estimate_number_of_pages (R := Float.exact_rounding)
    tt (Float.Inf false) 2 = Raise ValueError /\
  (exists n,
     Float._estimate_number_of_pages (R := Float.exact_rounding)
       tt (Float.Fin (7 # 2)) 2 = Ok n) /\
  (forall n,
     Float._estimate_number_of_pages (R := Float.exact_rounding)
       tt (Float.Fin (7 # 2)) 2 = Ok n -> 1 <= n).
Proof.
  split; [| split; [| split; [| split]]].
  - apply (estimate_number_of_pages_float_failures (RL := exact_rounding_laws)
             tt (Float.Fin (7 # 2)) 0). lia.
  - apply (estimate_number_of_pages_float_failures (RL := exact_rounding_laws)
             tt (Float.Fin (- (7 # 2))) 2). split; [lia | reflexivity].
  - apply (estimate_number_of_pages_float_failures (RL := exact_rounding_laws)
             tt (Float.Inf false) 2). right. split; [reflexivity |].
    exists (Float.Fin (inject_Z 2)). split; reflexivity.
  - apply (estimate_number_of_pages_float_failures (RL := exact_rounding_laws)
             tt (Float.Fin (7 # 2)) 2). split; [lia |]. split; [reflexivity |].
    exists (Float.Fin (inject_Z 2)). split; reflexivity.
  - apply (estimate_number_of_pages_float_failures (RL := exact_rounding_laws)
             tt (Float.Fin (7 # 2)) 2).
Defined.


(** With exact rounding the float estimator is the estimator on rationals. *)
Lemma estimate_number_of_pages_exact {QueryT} (query : QueryT) (c : Q) (p : Z) :
  Float._estimate_number_of_pages (R := Float.exact_rounding) query (Float.Fin c) p
  = _estimate_number_of_pages query c p.
Proof.
  unfold Float._estimate_number_of_pages, _estimate_number_of_pages.
  destruct (p <? 1) eqn:Ep; [done |].
  cbn [Float.flt]. unfold Qneg.
  destruct (Qle_bool 0 c) eqn:Ec; cbn [negb]; [| done].
  apply Qle_bool_iff in Ec.
  assert (Hf : (1 <= inject_Z p)%Q).
  { change 1%Q with (inject_Z 1). rewrite <- Zle_Qle. lia. }
  unfold Float.float_of_int. cbn [Float.round Float.exact_rounding].
  cbn [mbind result_bind]. unfold Float.fsub.
  cbn [Float.fopp Float.fadd Float.round Float.exact_rounding].
  set (f := inject_Z p) in *. set (x := (c + f + - (1))%Q).
  assert (Hx : (0 <= x)%Q) by (unfold x; lra).
  assert (Hfloor : floordiv c p = Qfloor (x / f)).
  { unfold floordiv. apply Qfloor_comp. unfold x. fold f.
    unfold Qminus. reflexivity. }
  rewrite Hfloor. clear Hfloor. clearbody x f.
  destruct (float_floor_div_quotient (RL := exact_rounding_laws) x f Hx eq_refl Hf)
    as (u & v & Eu & Ev & _ & Hv0 & _ & ->).
  cbn [Float.round Float.exact_rounding] in Eu, Ev.
  set (n := Qfloor (x / f)) in *.
  assert (Hn0 : 0 <= n).
  { apply Qfloor_nonneg. apply Qle_shift_div_l; lra. }
  clearbody n.
  assert (Hv : (v == inject_Z n)%Q).
  { assert (u = (x + - (x - f * inject_Z n))%Q) as -> by congruence.
    assert (((x + - (x - f * inject_Z n)) / f)%Q = v) as <- by congruence.
    field. lra. }
  assert (Hfl : Qfloor v = n) by (by rewrite (Qfloor_comp _ _ Hv), Qfloor_Z).
  destruct (snap_cases (RL := exact_rounding_laws) v Hv0 eq_refl)
    as [[Hz ->] | [Hnz [[_ ->] | (Ehalf & _)]]].
  - cbn [mbind result_bind Float.int_of_float].
    rewrite <- Hfl, (Qfloor_comp _ _ Hz). reflexivity.
  - cbn [mbind result_bind Float.int_of_float].
    rewrite Qtrunc_nonneg, Qfloor_Z, Hfl; [done |].
    change 0%Q with (inject_Z 0). rewrite <- Zle_Qle. lia.
  - cbn [Float.round Float.exact_rounding Float.flt] in Ehalf.
    assert (Qle_bool (v + - inject_Z (Qfloor v)) (1 # 2) = true) as E.
    { apply Qle_bool_iff. rewrite Hfl. lra. }
    by rewrite E in Ehalf.
Qed.

Lemma exact_rounding_integers : Float.ExactIntegers Float.exact_rounding.
Proof. intros q z _ _. by exists q. Qed.

(** In exact arithmetic, 3.5 and 4.5 rows in pages of 1. *)
Lemma estimate_number_of_pages_float_monotone_witness : 3 <= 4.
Proof.
  apply (estimate_number_of_pages_float_monotone (RL := exact_rounding_laws)
           tt (Float.Fin (7 # 2)) (Float.Fin (9 # 2)) 1 3 4);
    [discriminate | reflexivity | reflexivity].
Defined.

(** 1000 rows in pages of 7: 143 pages. *)
Lemma estimate_number_of_pages_float_integer_witness :
  Float._estimate_number_of_pages (R := Float.exact_rounding)
    tt (Float.Fin (inject_Z 1000)) 7 = Ok 143.
Proof.
  rewrite (estimate_number_of_pages_float_integer (RL := exact_rounding_laws)
             (EI := exact_rounding_integers) tt 1000 7);
    [reflexivity | lia | lia | lia].
Defined.

(** ** Name generation *)

Lemma format_name_inj base : Inj (=) (=) (format_name base).
Proof.
  intros i j H. unfold format_name in H.
  apply (inj (String.app base)) in H.
  apply (inj (String.app "_")) in H.
  by apply (inj pretty) in H.
Qed.

(** Names already tried and all taken are no more than the taken names. *)
Lemma tried_names_bound base (taken : gset string) (index : nat) :
  (forall j, (j < index)%nat -> format_name base j ∈ taken) ->
  (index <= size taken)%nat.
Proof.
  intros Hall.
  pose proof (format_name_inj base) as Hinj.
  set (tried := format_name base <$> seq 0 index).
  assert (Hsub : (list_to_set tried : gset string) ⊆ taken).
  { intros x Hx.
    apply elem_of_list_to_set, list_elem_of_fmap in Hx as (j & -> & Hj).
    apply elem_of_seq in Hj. apply Hall. lia. }
  apply subseteq_size in Hsub.
  rewrite size_list_to_set in Hsub.
  - unfold tried in Hsub. by rewrite length_fmap, length_seq in Hsub.
  - apply NoDup_fmap_2; [done | apply NoDup_seq].
Qed.

Lemma generate_new_name_loop_spec fuel base (taken : gset string) (index : nat) :
  (forall j, (j < index)%nat -> format_name base j ∈ taken) ->
  (size taken < fuel + index)%nat ->
  exists i,
    _generate_new_name_loop fuel base taken index = Some (format_name base i) /\
    (format_name base i ∉ taken) /\
    (forall j, (j < i)%nat -> format_name base j ∈ taken).
Proof.
  revert index. induction fuel as [| fuel IH]; intros index Hall Hfuel.
  - apply tried_names_bound in Hall. lia.
  - simpl. destruct (decide (format_name base index ∈ taken)) as [Hin | Hout].
    + apply IH; [| lia].
      intros j Hj. destruct (decide (j = index)) as [-> | Hne]; [done |].
      apply Hall. lia.
    + exists index. done.
Qed.

(** The loop bound is never reached: the first free name is returned. *)
Lemma generate_new_name_spec base (taken : gset string) :
  exists i,
    _generate_new_name base taken = Some (format_name base i) /\
    (format_name base i ∉ taken) /\
    (forall j, (j < i)%nat -> format_name base j ∈ taken).
Proof.
  apply generate_new_name_loop_spec; [intros j Hj |]; lia.
Qed.

Lemma generate_new_name_not_taken base (taken : gset string) name :
  _generate_new_name base taken = Some name -> name ∉ taken.
Proof.
  intros Hname. destruct (generate_new_name_spec base taken) as (i & Hi & Hout & _).
  congruence.
Qed.

(** ** Filter directives *)

Section FilterDirectives.
Context {CH : CompilerHelpers}.

(** C10. The directive built by [_make_binary_filter_directive_node] is named
    [filter]; its first argument holds the comparator, its second a list with
    the one string ["$" + param_name]; [_get_filter_node_operation] reads the
    comparator back, so that pruning against a directive of the same
    comparator drops it and records its parameter. *)
Theorem make_binary_filter_directive_node_operation (op_name param_name : string) :
  let directive := _make_binary_filter_directive_node op_name param_name in
  directive_name directive = "filter" /\
  (argument_value <$> directive_arguments directive =
     [StringValueNode op_name;
      ListValueNode [StringValueNode ("$" +:+ param_name)]]) /\
  _get_filter_node_operation directive = Ok op_name /\
  _get_binary_filter_node_parameter directive =
    get_parameter_name ("$" +:+ param_name) /\
  (forall other_name,
     prune_directives (_make_binary_filter_directive_node op_name other_name)
       [directive] =
     (removed ← get_parameter_name ("$" +:+ param_name); Ok ([], [removed]))).
Proof.
  repeat split.
  intros other_name. simpl.
  destruct (decide (op_name = op_name)) as [_ | Hne]; [| done].
  change (_get_binary_filter_node_parameter
            (_make_binary_filter_directive_node op_name param_name))
    with (get_parameter_name ("$" +:+ param_name)).
  by destruct (get_parameter_name ("$" +:+ param_name)).
Qed.

End FilterDirectives.

(** ** The filter injection *)

Section FilterInjection.
Context {CH : CompilerHelpers} {AM : AstManipulation}.

Lemma prune_directives_spec d ds kept removed :
  prune_directives d ds = Ok (kept, removed) ->
  kept = filter (fun x => ~ same_operation d x) ds /\
  Forall2 (fun x p => _get_binary_filter_node_parameter x = Ok p)
    (filter (same_operation d) ds) removed.
Proof.
  revert kept removed. induction ds as [| x ds IH]; intros kept removed H.
  - simpl in H. injection H as <- <-. split; [done | constructor].
  - simpl in H. inv_bind H. rename a into op. inv_bind H. rename a into op_add.
    assert (Hsame : same_operation d x <-> op = op_add).
    { unfold same_operation. rewrite Ha, Ha0. split; congruence. }
    destruct (decide (op = op_add)) as [Heq | Hne].
    + inv_bind H. rename a into p. inv_bind H. destruct a as [kept' removed'].
      injection H as <- <-. destruct (IH _ _ Ha2) as [-> Hrem].
      rewrite !filter_cons. 
      destruct (decide (~ same_operation d x)) as [Hn | _]; [tauto |].
      destruct (decide (same_operation d x)) as [_ | Hn]; [| tauto].
      split; [done | by constructor].
    + inv_bind H. destruct a as [kept' removed'].
      injection H as <- <-. destruct (IH _ _ Ha1) as [-> Hrem].
      rewrite !filter_cons.
      destruct (decide (~ same_operation d x)) as [_ | Hn]; [| tauto].
      destruct (decide (same_operation d x)) as [Hn | _]; [tauto |].
      done.
Qed.

Lemma filter_target_selections_spec f d sels sels' removed found :
  filter_target_selections f d sels = Ok (sels', removed, found) ->
  (exists removed_each,
     Forall3 (rewritten_selection f d) sels sels' removed_each /\
     removed = concat removed_each) /\
  (found = true <-> Exists (fun s => get_ast_field_name s = Ok f) sels).
Proof.
  revert sels' removed found.
  induction sels as [| s sels IH]; intros sels' removed found H.
  - simpl in H. injection H as <- <- <-. split.
    + exists []. split; [constructor | done].
    + rewrite Exists_nil. split; [done | tauto].
  - simpl in H. inv_bind H. rename a into nm.
    destruct (decide (nm = f)) as [-> | Hne].
    + inv_bind H. destruct a as [kept rem_s].
      inv_bind H. destruct a as [[sels0 rem0] found0].
      injection H as <- <- <-.
      destruct (IH _ _ _ Ha1) as [(each & Hall & ->) _].
      apply prune_directives_spec in Ha0 as [-> Hrem].
      split.
      * exists (rem_s :: each). split; [| done].
        constructor; [| done].
        unfold rewritten_selection. rewrite decide_True by done. done.
      * split; [intros _ | done]. by apply Exists_cons_hd.
    + inv_bind H. destruct a as [[sels0 rem0] found0].
      injection H as <- <- <-.
      destruct (IH _ _ _ Ha0) as [(each & Hall & ->) Hfound].
      split.
      * exists ([] :: each). split; [| done].
        constructor; [| done].
        unfold rewritten_selection. rewrite decide_False; [done |].
        rewrite Ha. congruence.
      * rewrite Hfound, Exists_cons. split; [tauto |].
        intros [Hs | ?]; [| done]. rewrite Ha in Hs. congruence.
Qed.

Lemma selection_set_of_copy n sels :
  is_selection_capable n = true ->
  selection_set_of (copy_with_selections n sels) = Some sels.
Proof. by destruct n. Qed.

(** At the target vertex itself. *)
Lemma add_pagination_filter_target v f d v' removed :
  _add_pagination_filter v [] f d = Ok (v', removed) ->
  rewritten_target f d v v' removed.
Proof.
  intros H. simpl in H.
  destruct (is_selection_capable v); [simpl in H | done].
  destruct (selection_set_of v) as [sels |] eqn:Hsels; [| done].
  inv_bind H. destruct a as [[sels0 rem0] found0].
  injection H as <- <-.
  apply filter_target_selections_spec in Ha as [(each & Hall & ->) Hfound].
  exists sels. split; [done |].
  destruct found0.
  - rewrite decide_True by (by apply Hfound). eauto.
  - rewrite decide_False.
    2:{ intros HE. apply Hfound in HE. done. }
    assert (Hsame : sels0 = sels /\ concat each = []).
    { assert (Hno : Forall (fun s => get_ast_field_name s <> Ok f) sels).
      { apply Forall_forall. intros s Hs Hn.
        assert (false = true); [| done].
        apply Hfound, Exists_exists. eauto. }
      clear Hfound Hsels. induction Hall as [| s s' r sels sels0 each Hr Hall IH].
      - done.
      - apply Forall_cons in Hno as [Hs Hno].
        unfold rewritten_selection in Hr. rewrite decide_False in Hr by done.
        destruct Hr as [-> ->]. destruct (IH Hno) as [-> Hc].
        split; [done |]. simpl. done. }
    destruct Hsame as [-> ->]. done.
Qed.

(** Above the target: a selection on the path is replaced by the result of
    the recursive call, at the same position. *)
Lemma descend_selections_lookup recurse seg sels sels' removed found i s :
  descend_selections recurse seg sels = Ok (sels', removed, found) ->
  sels !! i = Some s ->
  get_ast_field_name s = Ok seg ->
  exists s' removed_s,
    recurse s = Ok (s', removed_s) /\ sels' !! i = Some s' /\
    removed_s ⊆ removed.
Proof.
  revert sels' removed found i.
  induction sels as [| x sels IH]; intros sels' removed found i H Hi Hs; [done |].
  simpl in H. inv_bind H. rename a into nm.
  destruct (decide (nm = seg)) as [-> | Hne].
  - inv_bind H. destruct a as [x' rem_x].
    inv_bind H. destruct a as [[sels0 rem0] found0].
    injection H as <- <- <-.
    destruct i as [| i]; simpl in Hi.
    + injection Hi as ->. exists x', rem_x. split; [done |]. split; [done |].
      set_solver.
    + destruct (IH _ _ _ _ Ha1 Hi Hs) as (s' & rs & Hrec & Hl & Hsub).
      exists s', rs. split; [done |]. split; [done |]. set_solver.
  - inv_bind H. destruct a as [[sels0 rem0] found0].
    injection H as <- <- <-.
    destruct i as [| i]; simpl in Hi.
    + injection Hi as ->. congruence.
    + destruct (IH _ _ _ _ Ha0 Hi Hs) as (s' & rs & Hrec & Hl & Hsub).
      exists s', rs. done.
Qed.

(** Where [_add_pagination_filter] returns, the vertex reached along the
    path is rewritten, at the same positions. *)
Lemma add_pagination_filter_reached root path f d root' removed pos v :
  _add_pagination_filter root path f d = Ok (root', removed) ->
  reaches root path pos v ->
  exists v' removed_v,
    subnode root' pos = Some v' /\
    rewritten_target f d v v' removed_v /\
    removed_v ⊆ removed.
Proof.
  intros H Hreach. revert root' removed H.
  induction Hreach as [v | n sels i s seg path pos v Hsels Hi Hs Hreach IH];
    intros root' removed H.
  - exists root', removed. split; [done |].
    split; [by apply add_pagination_filter_target | done].
  - simpl in H.
    destruct (is_selection_capable n) eqn:Hcap; [simpl in H | done].
    rewrite Hsels in H.
    inv_bind H. destruct a as [[sels0 rem0] found0].
    destruct found0; [| done]. injection H as <- <-.
    destruct (descend_selections_lookup _ _ _ _ _ _ _ _ Ha Hi Hs)
      as (s' & rs & Hrec & Hl & Hsub).
    destruct (IH _ _ Hrec) as (v' & rv & Hsub' & Hrw & Hrv).
    exists v', rv. split; [| split; [done | set_solver]].
    simpl. rewrite selection_set_of_copy by done. simpl.
    rewrite Hl. done.
Qed.

(** Every removed name comes from a selection that bears the next name of
    the path. *)
Lemma descend_selections_removed recurse seg sels sels' removed found k :
  descend_selections recurse seg sels = Ok (sels', removed, found) ->
  k ∈ removed ->
  exists i s s' removed_s,
    sels !! i = Some s /\ get_ast_field_name s = Ok seg /\
    recurse s = Ok (s', removed_s) /\ sels' !! i = Some s' /\
    k ∈ removed_s.
Proof.
  revert sels' removed found.
  induction sels as [| x sels IH]; intros sels' removed found H Hk.
  { simpl in H. injection H as <- <- <-. by apply elem_of_nil in Hk. }
  simpl in H. inv_bind H. rename a into nm.
  destruct (decide (nm = seg)) as [-> | Hne].
  - inv_bind H. destruct a as [x' rem_x].
    inv_bind H. destruct a as [[sels0 rem0] found0].
    injection H as <- <- <-.
    apply elem_of_app in Hk as [Hk | Hk].
    + exists 0%nat, x, x', rem_x. done.
    + destruct (IH _ _ _ Ha1 Hk) as (i & s & s' & rs & ? & ? & ? & ? & ?).
      exists (S i), s, s', rs. done.
  - inv_bind H. destruct a as [[sels0 rem0] found0].
    injection H as <- <- <-.
    destruct (IH _ _ _ Ha0 Hk) as (i & s & s' & rs & ? & ? & ? & ? & ?).
    exists (S i), s, s', rs. done.
Qed.

(** When the loop has found the name, a selection bears it and the
    recursive call on it has returned. *)
Lemma descend_selections_found recurse seg sels sels' removed :
  descend_selections recurse seg sels = Ok (sels', removed, true) ->
  exists i s s' removed_s,
    sels !! i = Some s /\ get_ast_field_name s = Ok seg /\
    recurse s = Ok (s', removed_s).
Proof.
  revert sels' removed.
  induction sels as [| x sels IH]; intros sels' removed H; [done |].
  simpl in H. inv_bind H. rename a into nm.
  destruct (decide (nm = seg)) as [-> | Hne].
  - inv_bind H. destruct a as [x' rem_x]. exists 0%nat, x, x', rem_x. done.
  - inv_bind H. destruct a as [[sels0 rem0] found0].
    injection H as <- <- ->.
    destruct (IH _ _ Ha0) as (i & s & s' & rs & ? & ? & ?).
    exists (S i), s, s', rs. done.
Qed.

(** Where the rewrite returns, the path leads to a vertex. *)
Lemma add_pagination_filter_reaches root path f d root' removed :
  _add_pagination_filter root path f d = Ok (root', removed) ->
  exists pos v, reaches root path pos v.
Proof.
  revert root root' removed.
  induction path as [| seg path IH]; intros root root' removed H.
  { exists [], root. constructor. }
  simpl in H.
  destruct (is_selection_capable root) eqn:Hcap; [simpl in H | done].
  destruct (selection_set_of root) as [sels |] eqn:Hsels; [| done].
  inv_bind H. destruct a as [[sels0 rem0] found0].
  destruct found0; [| done].
  destruct (descend_selections_found _ _ _ _ _ Ha)
    as (i & s & s' & rs & Hi & Hs & Hrec).
  destruct (IH _ _ _ Hrec) as (pos & v & Hreach).
  exists (i :: pos), v. by econstructor.
Qed.

(** Every removed name is recorded at a vertex the path reaches. *)
Lemma add_pagination_filter_removed root path f d root' removed k :
  _add_pagination_filter root path f d = Ok (root', removed) ->
  k ∈ removed ->
  exists pos v v' removed_v,
    reaches root path pos v /\
    subnode root' pos = Some v' /\
    rewritten_target f d v v' removed_v /\
    k ∈ removed_v.
Proof.
  revert root root' removed.
  induction path as [| seg path IH]; intros root root' removed H Hk.
  { exists [], root, root', removed. split; [constructor |].
    split; [done |]. split; [by apply add_pagination_filter_target | done]. }
  simpl in H.
  destruct (is_selection_capable root) eqn:Hcap; [simpl in H | done].
  destruct (selection_set_of root) as [sels |] eqn:Hsels; [| done].
  inv_bind H. destruct a as [[sels0 rem0] found0].
  destruct found0; [| done]. injection H as <- <-.
  destruct (descend_selections_removed _ _ _ _ _ _ _ Ha Hk)
    as (i & s & s' & rs & Hi & Hs & Hrec & Hi' & Hks).
  destruct (IH _ _ _ Hrec Hks) as (pos & v & v' & rv & Hreach & Hsub & Hrw & Hkv).
  exists (i :: pos), v, v', rv. split; [by econstructor |].
  split; [| done].
  simpl. rewrite selection_set_of_copy by done. simpl. by rewrite Hi'.
Qed.

Lemma selection_set_capable n sels :
  selection_set_of n = Some sels -> is_selection_capable n = true.
Proof. by destruct n. Qed.

Lemma directives_of_copy_with_directives n ds :
  directives_of (copy_with_directives n ds) = ds.
Proof. by destruct n. Qed.




Lemma filter_same_operation_kept d ds :
  same_operation d d ->
  filter (same_operation d)
    (filter (fun x => ~ same_operation d x) ds ++ [d]) = [d].
Proof.
  intros Hd. rewrite filter_app.
  assert (filter (same_operation d)
            (filter (fun x => ~ same_operation d x) ds) = []) as ->.
  { induction ds as [| x ds IH]; [done |].
    rewrite filter_cons. destruct (decide (~ same_operation d x)) as [Hn | _].
    - rewrite filter_cons. by destruct (decide (same_operation d x)).
    - done. }
  rewrite filter_cons. by destruct (decide (same_operation d d)).
Qed.

(** At the rewritten target vertex a selection on the pagination field ends
    with the new directive, its only directive of that comparator. *)
Lemma rewritten_target_filter f d v v' removed :
  rewritten_target f d v v' removed ->
  exists sels' s',
    selection_set_of v' = Some sels' /\ s' ∈ sels' /\
    (s' = new_filter_selection f d \/
     exists original,
       get_ast_field_name original = Ok f /\
       s' = copy_with_directives original (directives_of s')) /\
    last (directives_of s') = Some d /\
    filter (same_operation d) (directives_of s') = [d].
Proof.
  intros (sels & Hsels & Hrw).
  pose proof (selection_set_capable _ _ Hsels) as Hcap.
  assert (Hd : same_operation d d) by done.
  destruct (decide (Exists _ sels)) as [Hex | Hno].
  - destruct Hrw as (sels' & each & -> & Hall & _).
    exists sels'. rewrite selection_set_of_copy by done.
    assert (Hs' : exists s',
      s' ∈ sels' /\
      (exists original, get_ast_field_name original = Ok f /\
         s' = copy_with_directives original (directives_of s')) /\
      last (directives_of s') = Some d /\
      filter (same_operation d) (directives_of s') = [d]).
    { clear Hsels. induction Hall as [| s s' r sels sels' each Hr Hall IH].
      - by apply Exists_nil in Hex.
      - unfold rewritten_selection in Hr.
        destruct (decide (get_ast_field_name s = Ok f)) as [Hf | Hf].
        + destruct Hr as [-> _]. eexists. split; [by left |].
          rewrite directives_of_copy_with_directives.
          split; [by exists s |]. split; [apply last_snoc |].
          by apply filter_same_operation_kept.
        + apply Exists_cons in Hex as [? | Hex]; [done |].
          destruct (IH Hex) as (s0 & ? & ?). exists s0. split; [by right | done]. }
    destruct Hs' as (s' & Hin & Horig & Hlast & Hfilter).
    exists s'. split; [done |]. split; [done |]. split; [by right | done].
  - destruct Hrw as [-> _].
    exists (new_filter_selection f d :: sels), (new_filter_selection f d).
    split; [by apply selection_set_of_copy |]. split; [by left |].
    split; [by left |]. split; [done |]. simpl.
    rewrite filter_cons. by destruct (decide (same_operation d d)).
Qed.


(** Where the rewrite returns, each vertex the path reaches carries the new
    directive in the result. *)
Lemma add_pagination_filter_carries root path f d root' removed pos v :
  _add_pagination_filter root path f d = Ok (root', removed) ->
  reaches root path pos v ->
  pagination_filter_at root' pos f d.
Proof.
  intros H Hreach.
  destruct (add_pagination_filter_reached _ _ _ _ _ _ _ _ H Hreach)
    as (v' & rv & Hsub & Hrw & _).
  destruct (rewritten_target_filter _ _ _ _ _ Hrw)
    as (sels' & s' & ? & ? & ? & ? & ?).
  by exists v', sels', s'.
Qed.

(** X19. Where [_add_pagination_filter] returns, the path reaches a
    vertex, and every vertex it reaches is rewritten at its position as
    follows: if a selection on the pagination field exists, each such
    selection keeps its directives of another comparator, loses those of the
    comparator being inserted (their parameter names are among the removed
    ones) and gets the new directive appended; if none exists, a new
    selection on the pagination field carrying only the new directive is put
    first and the selections present are unchanged. Every removed name is
    recorded at such a vertex. *)
Theorem add_pagination_filter_at_target root path f d root' removed :
  _add_pagination_filter root path f d = Ok (root', removed) ->
  (exists pos v, reaches root path pos v) /\
  (forall pos v,
     reaches root path pos v ->
     exists v' removed_v,
       subnode root' pos = Some v' /\
       rewritten_target f d v v' removed_v /\
       removed_v ⊆ removed) /\
  (forall k,
     k ∈ removed ->
     exists pos v v' removed_v,
       reaches root path pos v /\
       subnode root' pos = Some v' /\
       rewritten_target f d v v' removed_v /\
       k ∈ removed_v).
Proof.
  intros H. split; [by eapply add_pagination_filter_reaches |]. split.
  - intros pos v Hreach. by eapply add_pagination_filter_reached.
  - intros k Hk. by eapply add_pagination_filter_removed.
Qed.

End FilterInjection.

(** An instance of the rewrite: the vertex [Animal] carries two filters on
    [uuid]; inserting a ["<"] filter drops the old ["<"] filter only. *)
Lemma add_pagination_filter_at_target_witness :
  exists v' removed_v,
    subnode
      (OperationDefinitionNode QUERY None []
         (Some [FieldNode None "Animal" (Some []) []
            (Some [FieldNode None "uuid" (Some [])
                     [_make_binary_filter_directive_node ">=" "low";
                      _make_binary_filter_directive_node "<" "__paged_param_0"]
                     None;
                   FieldNode None "name" (Some []) [output_directive "animal"]
                     None])]))
      [0%nat] = Some v' /\
    rewritten_target (CH := example_compiler_helpers)
      (AM := example_ast_manipulation) "uuid"
      (_make_binary_filter_directive_node "<" "__paged_param_0")
      example_filtered_vertex v' removed_v /\
    removed_v ⊆ ["old"].
Proof.
  apply (proj1 (proj2
    (add_pagination_filter_at_target (CH := example_compiler_helpers)
       (AM := example_ast_manipulation)
       example_filtered_root ["Animal"] "uuid"
       (_make_binary_filter_directive_node "<" "__paged_param_0")
       _ ["old"] eq_refl)) [0%nat] example_filtered_vertex).
  eapply reaches_step; [reflexivity | reflexivity | reflexivity |].
  apply reaches_here.
Defined.

(** C5. The claim fails on a filter whose arguments are written value
    first: the path [Animal] reaches the vertex, whose selection on [uuid]
    carries a [">="] filter, and the insertion of a ["<"] filter raises
    [AttributeError] where the [">="] filter is to be kept and the new
    filter appended. [_get_filter_node_operation] reads the value of the
    first argument, whatever its name. *)
Theorem add_pagination_filter_value_first_raises :
  reaches (AM := example_ast_manipulation)
    example_value_first_root ["Animal"] [0%nat] example_value_first_vertex /\
  _add_pagination_filter (CH := example_compiler_helpers)
    (AM := example_ast_manipulation)
    example_value_first_root ["Animal"] "uuid"
    (_make_binary_filter_directive_node "<" "__paged_param_0")
  = Raise AttributeError /\
  generate_parameterized_queries (CH := example_compiler_helpers)
    (AM := example_ast_manipulation) tt
    (mkASTWithParameters (mkDocumentNode [example_value_first_root])
       {[ "low" := LitStr "40000000-0000-0000-0000-000000000000" ]})
    example_partition
  = Raise AttributeError.
Proof.
  split; [| split].
  - eapply reaches_step; [reflexivity | reflexivity | reflexivity |].
    apply reaches_here.
  - reflexivity.
  - by vm_compute.
Qed.

(** ** The parameter mappings *)

Section ParameterizerFacts.
Context {CH : CompilerHelpers} {AM : AstManipulation}.


Lemma generate_parameterized_queries_inv {SchemaInfoT} (s : SchemaInfoT)
    query vp page rem name :
  generate_parameterized_queries s query vp = Ok (page, rem, name) ->
  exists query_type page_root page_removed rem_root rem_removed,
    get_only_query_definition (query_ast query) = Ok query_type /\
    _generate_new_name "__paged_param" (dom (parameters query)) = Some name /\
    _add_pagination_filter query_type (query_path vp) (pagination_field vp)
      (_make_binary_filter_directive_node "<" name)
      = Ok (page_root, page_removed) /\
    _add_pagination_filter query_type (query_path vp) (pagination_field vp)
      (_make_binary_filter_directive_node ">=" name)
      = Ok (rem_root, rem_removed) /\
    page = mkASTWithParameters (mkDocumentNode [page_root])
             (prune_parameters (parameters query) page_removed) /\
    rem = mkASTWithParameters (mkDocumentNode [rem_root])
            (prune_parameters (parameters query) rem_removed).
Proof.
  intros H. unfold generate_parameterized_queries in H.
  inv_bind H. rename a into query_type.
  destruct (_generate_new_name _ _) as [param_name |] eqn:Hname; [| done].
  inv_bind H. destruct a as [page_root page_removed].
  inv_bind H. destruct a as [rem_root rem_removed].
  injection H as <- <- <-.
  exists query_type, page_root, page_removed, rem_root, rem_removed. done.
Qed.


(** C8. The name is the base name followed by the first of the numbers
    0, 1, 2, ... that gives a name not among the keys of the parameter
    mapping, so it is no key of that mapping; where
    [generate_parameterized_queries] returns, at every vertex that the path
    reaches a selection on the pagination field of the page query ends with
    the filter [@filter(op_name: "<", value: ["$" + name])] and one of the
    remainder query with [@filter(op_name: ">=", value: ["$" + name])], each
    the only filter of its comparator there: both carry this one name. *)
Theorem generated_parameter_name {SchemaInfoT} (s : SchemaInfoT) query vp :
  (exists i,
     _generate_new_name "__paged_param" (dom (parameters query))
       = Some (format_name "__paged_param" i) /\
     parameters query !! format_name "__paged_param" i = None /\
     (forall j, (j < i)%nat ->
        is_Some (parameters query !! format_name "__paged_param" j))) /\
  (forall page rem name,
     generate_parameterized_queries s query vp = Ok (page, rem, name) ->
     _generate_new_name "__paged_param" (dom (parameters query)) = Some name /\
     parameters query !! name = None /\
     exists query_type page_root page_removed rem_root rem_removed,
       get_only_query_definition (query_ast query) = Ok query_type /\
       _add_pagination_filter query_type (query_path vp) (pagination_field vp)
         (_make_binary_filter_directive_node "<" name)
         = Ok (page_root, page_removed) /\
       _add_pagination_filter query_type (query_path vp) (pagination_field vp)
         (_make_binary_filter_directive_node ">=" name)
         = Ok (rem_root, rem_removed) /\
       query_ast page = mkDocumentNode [page_root] /\
       query_ast rem = mkDocumentNode [rem_root] /\
       (exists pos v, reaches query_type (query_path vp) pos v) /\
       (forall pos v,
          reaches query_type (query_path vp) pos v ->
          pagination_filter_at page_root pos (pagination_field vp)
            (mkDirectiveNode "filter"
               [mkArgumentNode "op_name" (StringValueNode "<");
                mkArgumentNode "value"
                  (ListValueNode [StringValueNode ("$" +:+ name)])]) /\
          pagination_filter_at rem_root pos (pagination_field vp)
            (mkDirectiveNode "filter"
               [mkArgumentNode "op_name" (StringValueNode ">=");
                mkArgumentNode "value"
                  (ListValueNode [StringValueNode ("$" +:+ name)])]))).
Proof.
  split.
  - destruct (generate_new_name_spec "__paged_param" (dom (parameters query)))
      as (i & Hi & Hout & Hbelow).
    exists i. split; [done |]. split.
    + by apply not_elem_of_dom.
    + intros j Hj. by apply elem_of_dom, Hbelow.
  - intros page rem name H. apply generate_parameterized_queries_inv in H
      as (qt & pr & prem & rr & rrem & Hq & Hname & Hp & Hr & -> & ->).
    split; [done |]. split.
    + by apply not_elem_of_dom, (generate_new_name_not_taken "__paged_param").
    + exists qt, pr, prem, rr, rrem.
      do 5 (split; [done |]).
      split; [by eapply add_pagination_filter_reaches |].
      intros pos v Hreach. split.
      * exact (add_pagination_filter_carries _ _ _ _ _ _ _ _ Hp Hreach).
      * exact (add_pagination_filter_carries _ _ _ _ _ _ _ _ Hr Hreach).
Qed.

End ParameterizerFacts.




(** A parameter that two filters share: [$p] bounds [uuid] and [name]. The
    page query loses [p] with the ["<"] filter on [uuid] that is replaced,
    while its filter on [name] still refers to [$p]. *)
Lemma generate_parameterized_queries_shared_parameter :
  let shared := _make_binary_filter_directive_node "<" "p" in
  let query :=
    mkASTWithParameters
      (mkDocumentNode
         [OperationDefinitionNode QUERY None []
            (Some [FieldNode None "Animal" (Some []) []
               (Some [FieldNode None "uuid" (Some []) [shared] None;
                      FieldNode None "name" (Some [])
                        [shared; output_directive "animal"] None])])])
      {[ "p" := LitStr "m" ]} in
  exists page rem,
    generate_parameterized_queries (CH := example_compiler_helpers)
      (AM := example_ast_manipulation) tt query example_partition
      = Ok (page, rem, "__paged_param_0") /\
    query_ast page =
      mkDocumentNode
        [OperationDefinitionNode QUERY None []
           (Some [FieldNode None "Animal" (Some []) []
              (Some [FieldNode None "uuid" (Some [])
                       [_make_binary_filter_directive_node "<" "__paged_param_0"]
                       None;
                     FieldNode None "name" (Some [])
                       [shared; output_directive "animal"] None])])] /\
    parameters page !! "p" = None.
Proof.
  eexists _, _. split; [reflexivity |]. split; reflexivity.
Qed.

(** Under three taken names [__paged_param_0], [__paged_param_1] and
    [__paged_param_3] the generated name is [__paged_param_2]; the vertex
    [Animal] of the page query carries the ["<"] filter on it and that of
    the remainder query the [">="] filter on it. *)
Lemma generated_parameter_name_witness :
  let query :=
    mkASTWithParameters (mkDocumentNode [example_plain_root])
      {[ "__paged_param_0" := LitInt 0; "__paged_param_1" := LitInt 1;
         "__paged_param_3" := LitInt 3 ]} in
  exists page rem page_root rem_root,
    generate_parameterized_queries (CH := example_compiler_helpers)
      (AM := example_ast_manipulation) tt query example_partition
      = Ok (page, rem, "__paged_param_2") /\
    parameters query !! "__paged_param_2" = None /\
    query_ast page = mkDocumentNode [page_root] /\
    query_ast rem = mkDocumentNode [rem_root] /\
    pagination_filter_at (AM := example_ast_manipulation) page_root [0%nat] "uuid"
      (mkDirectiveNode "filter"
         [mkArgumentNode "op_name" (StringValueNode "<");
          mkArgumentNode "value"
            (ListValueNode [StringValueNode "$__paged_param_2"])]) /\
    pagination_filter_at (AM := example_ast_manipulation) rem_root [0%nat] "uuid"
      (mkDirectiveNode "filter"
         [mkArgumentNode "op_name" (StringValueNode ">=");
          mkArgumentNode "value"
            (ListValueNode [StringValueNode "$__paged_param_2"])]).
Proof.
  intros query.
  destruct (proj2 (generated_parameter_name (CH := example_compiler_helpers)
                     (AM := example_ast_manipulation) tt query example_partition)
              _ _ _ eq_refl)
    as (_ & Hfree & qt & pr & prem & rr & rrem & Hq & _ & _ & Hpage & Hrem
        & _ & Hfilters).
  injection Hq as <-.
  destruct (Hfilters [0%nat]
              (FieldNode None "Animal" (Some []) []
                 (Some [FieldNode None "name" (Some [])
                          [output_directive "animal"] None])))
    as [Hlt Hge].
  { eapply reaches_step; [reflexivity | reflexivity | reflexivity |].
    apply reaches_here. }
  eexists _, _, pr, rr. split; [reflexivity |]. done.
Defined.

(** ** The Pagination Orchestrator *)

Section OrchestratorFacts.
Context {CH : CompilerHelpers} {AM : AstManipulation} {CO : Collaborators}.

(** The call made by [paginate_query_ast] hands the partition plan over as
    [query]; reading [query.query_ast] fails. *)
Lemma generate_parameterized_queries_call_plan schema_info vp vertex_partition :
  generate_parameterized_queries_call schema_info (ObjVertexPartitionPlan vp)
    vertex_partition = Raise AttributeError.
Proof. reflexivity. Qed.

Lemma paginate_query_ast_unfold qa ps num_pages :
  1 <= ps ->
  _estimate_number_of_pages (query_string_with_parameters qa)
    (cardinality_estimate qa) ps = Ok num_pages ->
  paginate_query_ast qa ps =
  ('(page_query, remainder_queries, advisories) ←
     (if 1 <? num_pages then
        let '(pagination_plan, advisories) := get_pagination_plan qa num_pages in
        match vertex_partitions pagination_plan with
        | [] => Ok (ast_with_parameters qa, [], advisories)
        | [plan_vertex_partition] =>
            match generate_parameters_for_vertex_partition (schema_info qa)
                    (ast_with_parameters qa) plan_vertex_partition with
            | [] => Ok (ast_with_parameters qa, [], advisories)
            | first_param :: _ =>
                returned ← generate_parameterized_queries_call
                             (ObjQueryPlanningAnalysis qa)
                             (ObjVertexPartitionPlan plan_vertex_partition)
                             (ObjLiteral first_param);
                '(page_query, remainder_query) ← unpack_two returned;
                Ok (page_query, [remainder_query], advisories)
            end
        | _ => Raise NotImplementedError
        end
      else Ok (ast_with_parameters qa, [], []));
   Ok (mkPageAndRemainder (ast_with_parameters qa) ps page_query
         remainder_queries, advisories)).
Proof.
  intros Hps Hest. unfold paginate_query_ast.
  destruct (Z.ltb_spec ps 1); [lia |]. by rewrite Hest.
Qed.

(** C1, as the code has it. Where a split is due (more than one page, one
    vertex partition, a first boundary value), [paginate_query_ast] raises
    [AttributeError]: it returns no [PageAndRemainder]. *)
Theorem paginate_query_ast_split_raises qa ps num_pages plan advisories
    vp first_param others :
  1 <= ps ->
  _estimate_number_of_pages (query_string_with_parameters qa)
    (cardinality_estimate qa) ps = Ok num_pages ->
  1 < num_pages ->
  get_pagination_plan qa num_pages = (plan, advisories) ->
  vertex_partitions plan = [vp] ->
  generate_parameters_for_vertex_partition (schema_info qa)
    (ast_with_parameters qa) vp = first_param :: others ->
  paginate_query_ast qa ps = Raise AttributeError.
Proof.
  intros Hps Hest Hn Hplan Hvp Hgen.
  rewrite (paginate_query_ast_unfold _ _ _ Hps Hest).
  destruct (Z.ltb_spec 1 num_pages); [| lia].
  by rewrite Hplan, Hvp, Hgen.
Qed.



End OrchestratorFacts.

(** 1000 rows by pages of 1, a plan for the root vertex and generated
    boundaries: the split is due and the call raises. *)
Lemma paginate_query_ast_split_raises_witness :
  paginate_query_ast (CH := example_compiler_helpers)
    (AM := example_ast_manipulation) (CO := example_collaborators)
    (example_analysis 1 (inject_Z 1000)) 1 = Raise AttributeError.
Proof.
  apply (paginate_query_ast_split_raises (CH := example_compiler_helpers)
           (AM := example_ast_manipulation) (CO := example_collaborators)
           (example_analysis 1 (inject_Z 1000)) 1 1000
           (mkPaginationPlan [mkVertexPartitionPlan ["Animal"] "uuid" 1000]) []
           (mkVertexPartitionPlan ["Animal"] "uuid" 1000)
           (LitStr "40000000-0000-0000-0000-000000000000")
           [example_boundary; LitStr "c0000000-0000-0000-0000-000000000000"]);
    [lia | reflexivity | lia | reflexivity | reflexivity | reflexivity].
Defined.



(** ** The parameterizer on a store: what is left untouched *)

Section StoreFacts.
Import Store.
Context {CH : CompilerHelpers} {SAM : Store.AstManipulation}.

Lemma bind_M_Ok {A B} (m : M A) (k : A -> M B) (h : Heap) b h' :
  (m ≫= k) h = Ok (b, h') <->
  exists a h1, m h = Ok (a, h1) /\ k a h1 = Ok (b, h').
Proof.
  unfold mbind, M_bind. destruct (m h) as [[a h1] | e]; split.
  - intros Hk. by exists a, h1.
  - by intros (a' & h1' & [= <- <-] & Hk).
  - done.
  - by intros (a' & h1' & Hm & _).
Qed.

Lemma lift_Ok {A} (r : result A) (h : Heap) a h' :
  lift r h = Ok (a, h') <-> r = Ok a /\ h' = h.
Proof.
  unfold lift. destruct r; split; try done.
  - by intros [= <- <-].
  - by intros [[= <-] ->].
  - by intros [? _].
Qed.

Lemma mret_Ok {A} (x : A) (h : Heap) a h' :
  (mret x : M A) h = Ok (a, h') <-> x = a /\ h = h'.
Proof.
  unfold mret, M_ret. split; [by intros [= <- <-] | by intros [-> ->]].
Qed.

Lemma load_Ok l (h : Heap) c h' :
  load l h = Ok (c, h') <-> h !! l = Some c /\ h' = h.
Proof.
  unfold load. destruct (h !! l); split; try done.
  - by intros [= <- <-].
  - by intros [[= <-] ->].
  - by intros [? _].
Qed.

Lemma alloc_Ok c (h : Heap) l h' :
  alloc c h = Ok (l, h') -> h !! l = None /\ h' = <[l := c]> h.
Proof.
  unfold alloc. intros [= <- <-]. split; [| done].
  apply not_elem_of_dom, is_fresh.
Qed.

Lemma store_Ok l c (h : Heap) u h' :
  store l c h = Ok (u, h') -> is_Some (h !! l) /\ h' = <[l := c]> h.
Proof.
  unfold store. destruct (h !! l) eqn:Hl; [| done].
  intros [= <- <-]. eauto.
Qed.

Ltac inv_M H :=
  let a := fresh "a" in
  let h1 := fresh "h" in
  let Ha := fresh "Ha" in
  apply bind_M_Ok in H; destruct H as (a & h1 & Ha & H).

Ltac raised H := first [done | by apply lift_Ok in H as [? _]].

Lemma copy_Ok l (h : Heap) l' h' :
  copy l h = Ok (l', h') ->
  exists c, h !! l = Some c /\ h !! l' = None /\ h' = <[l' := c]> h.
Proof.
  unfold copy. intros H. inv_M H.
  apply load_Ok in Ha as [Hl ->]. apply alloc_Ok in H as [Hnew ->]. eauto.
Qed.

Lemma set_directives_Ok l ds (h : Heap) u h' :
  set_directives l ds h = Ok (u, h') ->
  exists c, h !! l = Some c /\ h' = <[l := cell_with_directives c ds]> h.
Proof.
  unfold set_directives. intros H. inv_M H.
  apply load_Ok in Ha as [Hl ->]. apply store_Ok in H as [_ ->]. eauto.
Qed.

Lemma set_selection_set_Ok l sels (h : Heap) u h' :
  set_selection_set l sels h = Ok (u, h') ->
  exists c, h !! l = Some c /\ h' = <[l := cell_with_selections c sels]> h.
Proof.
  unfold set_selection_set. intros H. inv_M H.
  apply load_Ok in Ha as [Hl ->]. apply store_Ok in H as [_ ->]. eauto.
Qed.

Lemma cell_with_directives_twice c ds ds' :
  cell_with_directives (cell_with_directives c ds) ds' =
  cell_with_directives c ds'.
Proof. by destruct c. Qed.

(** [rebuild] only adds an object. *)
Lemma rebuild_Ok l sels (h : Heap) l' h' :
  rebuild l sels h = Ok (l', h') ->
  exists c,
    h !! l = Some c /\ h !! l' = None /\
    h' = <[l' := cell_with_selections c sels]> h.
Proof.
  unfold rebuild. intros H. inv_M H. inv_M H.
  apply mret_Ok in H as [<- <-].
  apply copy_Ok in Ha as (c & Hl & Hnew & ->).
  apply set_selection_set_Ok in Ha0 as (c' & Hc' & ->).
  rewrite lookup_insert_eq in Hc'. injection Hc' as <-.
  exists c. by rewrite insert_insert_eq.
Qed.

Lemma load_dict_Ok l (h : Heap) items h' :
  load_dict l h = Ok (items, h') -> h !! l = Some (DictCell items) /\ h' = h.
Proof.
  unfold load_dict. intros H. inv_M H. apply load_Ok in Ha as [Hl ->].
  destruct a; try (raised H).
  by apply mret_Ok in H as [<- <-].
Qed.

Lemma shared_selection_mono (h0 h1 h2 h3 : Heap) f d s s' :
  shared_selection h1 h2 f d s s' -> h0 ⊆ h1 -> h2 ⊆ h3 ->
  shared_selection h0 h3 f d s s'.
Proof.
  intros (c & Hc & Hs) H01 H23. exists c.
  split; [by eapply lookup_weaken |].
  destruct (decide (get_ast_field_name c = Ok f)); [| done].
  destruct Hs as (Hnew & ds & kept & removed & Hds & Hprune & Hs').
  split; [by eapply lookup_weaken_None |].
  exists ds, kept, removed. split; [done |]. split; [done |].
  by eapply lookup_weaken.
Qed.

Lemma shared_target_mono (h0 h1 h2 h3 : Heap) f d sels sels' :
  shared_target h1 h2 f d sels sels' -> h0 ⊆ h1 -> h2 ⊆ h3 ->
  shared_target h0 h3 f d sels sels'.
Proof.
  intros [Hall | (new & Hnew & Hcell & ->)] H01 H23.
  - left. eapply Forall2_impl; [exact Hall |].
    intros s s' Hs. by eapply shared_selection_mono.
  - right. exists new. split; [by eapply lookup_weaken_None |].
    split; [by eapply lookup_weaken | done].
Qed.

Lemma rebuilt_mono path (h0 h1 h2 h3 : Heap) f d l l' :
  rebuilt h1 h2 path f d l l' -> h0 ⊆ h1 -> h2 ⊆ h3 ->
  rebuilt h0 h3 path f d l l'.
Proof.
  revert l l'. induction path as [| seg path IH]; intros l l' Hr H01 H23.
  - destruct Hr as (Hnew & c & sels & sels' & Hl & Hss & Hl' & Ht).
    split; [by eapply lookup_weaken_None |].
    exists c, sels, sels'. split; [by eapply lookup_weaken |].
    split; [done |]. split; [by eapply lookup_weaken |].
    by eapply shared_target_mono.
  - destruct Hr as (Hnew & c & sels & sels' & Hl & Hss & Hl' & Hall).
    split; [by eapply lookup_weaken_None |].
    exists c, sels, sels'. split; [by eapply lookup_weaken |].
    split; [done |]. split; [by eapply lookup_weaken |].
    eapply Forall2_impl; [exact Hall |].
    intros s s' (cs & Hcs & Hs). exists cs.
    split; [by eapply lookup_weaken |].
    destruct (decide (get_ast_field_name cs = Ok seg)); [| done].
    by apply IH.
Qed.

(** The loop at the target vertex adds objects and leaves the others. *)
Lemma filter_target_selections_frame f d sels (h : Heap) sels' removed found h' :
  filter_target_selections f d sels h = Ok ((sels', removed, found), h') ->
  h ⊆ h' /\
  Forall2 (shared_selection h h' f d) sels sels' /\
  (found = false -> sels' = sels).
Proof.
  revert h sels' removed found h'.
  induction sels as [| s sels IH]; intros h sels' removed found h' H.
  - simpl in H. apply mret_Ok in H as [[= <- <- <-] <-].
    split; [done |]. split; [constructor | done].
  - simpl in H. inv_M H. apply load_Ok in Ha as [Hs ->]. rename a into cs.
    inv_M H. apply lift_Ok in Ha as [Hname ->]. rename a into nm.
    destruct (decide (nm = f)) as [-> | Hne].
    + inv_M H. apply copy_Ok in Ha as (c & Hc & Hnew & ->).
      rewrite Hs in Hc. injection Hc as <-. rename a into s'.
      inv_M H. apply lift_Ok in Ha as [Hds ->]. rename a into ds.
      inv_M H. apply set_directives_Ok in Ha as (c1 & Hc1 & ->).
      rewrite lookup_insert_eq in Hc1. injection Hc1 as <-.
      rewrite insert_insert_eq in H.
      inv_M H. apply lift_Ok in Ha as [Hprune ->]. destruct a0 as [kept rem_s].
      inv_M H. apply set_directives_Ok in Ha as (c2 & Hc2 & ->).
      rewrite lookup_insert_eq in Hc2. injection Hc2 as <-.
      rewrite insert_insert_eq, cell_with_directives_twice in H.
      inv_M H. destruct a1 as [[sels0 rem0] found0].
      apply mret_Ok in H as [[= <- <- <-] <-].
      apply IH in Ha as (Hsub & Hall & _).
      set (h1 := <[s' := cell_with_directives cs (kept ++ [d])]> h) in *.
      assert (Hh1 : h ⊆ h1) by (by apply insert_subseteq).
      split; [by etrans |]. split; [| done].
      constructor.
      * exists cs. split; [eapply lookup_weaken; [exact Hs | by etrans] |].
        rewrite decide_True by done. split; [done |].
        exists ds, kept, rem_s. split; [done |]. split; [done |].
        eapply lookup_weaken; [| exact Hsub]. apply lookup_insert_eq.
      * eapply Forall2_impl; [exact Hall |]. intros x x' Hx.
        by eapply shared_selection_mono.
    + inv_M H. destruct a as [[sels0 rem0] found0].
      apply mret_Ok in H as [[= <- <- <-] <-].
      apply IH in Ha as (Hsub & Hall & Hsame).
      split; [done |]. split.
      * constructor; [| done]. exists cs.
        split; [by eapply lookup_weaken |].
        rewrite decide_False; [done |]. rewrite Hname. congruence.
      * intros Hf. by rewrite Hsame.
Qed.

(** The loop above the target, for a recursive call that adds objects and
    leaves the others. *)
Lemma descend_selections_frame recurse seg
    (R : Heap -> Heap -> loc -> loc -> Prop) :
  (forall s (h : Heap) s' r h',
     recurse s h = Ok ((s', r), h') -> h ⊆ h' /\ R h h' s s') ->
  (forall (h0 h1 h2 h3 : Heap) s s',
     R h1 h2 s s' -> h0 ⊆ h1 -> h2 ⊆ h3 -> R h0 h3 s s') ->
  forall sels (h : Heap) sels' removed found h',
    descend_selections recurse seg sels h = Ok ((sels', removed, found), h') ->
    h ⊆ h' /\
    Forall2
      (fun s s' =>
         exists cs,
           h' !! s = Some cs /\
           if decide (get_ast_field_name cs = Ok seg) then R h h' s s'
           else s' = s)
      sels sels'.
Proof.
  intros Hrec Hmono sels.
  induction sels as [| s sels IH]; intros h sels' removed found h' H.
  - simpl in H. apply mret_Ok in H as [[= <- <- <-] <-].
    split; [done | constructor].
  - simpl in H. inv_M H. apply load_Ok in Ha as [Hs ->]. rename a into cs.
    inv_M H. apply lift_Ok in Ha as [Hname ->]. rename a into nm.
    destruct (decide (nm = seg)) as [-> | Hne].
    + inv_M H. destruct a as [s' rem_s].
      apply Hrec in Ha as [Hsub1 HR].
      inv_M H. destruct a as [[sels0 rem0] found0].
      apply mret_Ok in H as [[= <- <- <-] <-].
      apply IH in Ha as (Hsub2 & Hall).
      split; [by etrans |]. constructor.
      * exists cs. split; [eapply lookup_weaken; [exact Hs | by etrans] |].
        rewrite decide_True by done. by eapply Hmono.
      * eapply Forall2_impl; [exact Hall |].
        intros x x' (cx & Hcx & Hx). exists cx. split; [done |].
        destruct (decide (get_ast_field_name cx = Ok seg)); [| done].
        by eapply Hmono.
    + inv_M H. destruct a as [[sels0 rem0] found0].
      apply mret_Ok in H as [[= <- <- <-] <-].
      apply IH in Ha as (Hsub & Hall).
      split; [done |]. constructor; [| done].
      exists cs. split; [by eapply lookup_weaken |].
      rewrite decide_False; [done |]. rewrite Hname. congruence.
Qed.

Lemma cell_selection_set_capable c ss :
  cell_selection_set c = Ok ss -> is_selection_capable c = true.
Proof. by destruct c. Qed.

(** [_add_pagination_filter] assigns to no object of the store it is given:
    the objects it builds are new, and they share with the old ones all that
    is off the path. *)
Lemma add_pagination_filter_frame path l f d (h : Heap) l' removed h' :
  _add_pagination_filter l path f d h = Ok ((l', removed), h') ->
  h ⊆ h' /\ rebuilt h h' path f d l l'.
Proof.
  revert l h l' removed h'.
  induction path as [| seg path IH]; intros l h l' removed h' H.
  - simpl in H. inv_M H. apply load_Ok in Ha as [Hl ->]. rename a into c.
    destruct (is_selection_capable c); simpl in H;
      [| raised H].
    inv_M H. apply lift_Ok in Ha as [Hss ->].
    destruct a as [sels |]; [| raised H].
    inv_M H. destruct a as [[sels0 rem0] found0].
    apply filter_target_selections_frame in Ha as (Hsub1 & Hall & Hsame).
    inv_M H. rename a into sels1. inv_M H. rename a into new_ast.
    apply mret_Ok in H as [[= -> ->] <-].
    apply rebuild_Ok in Ha0 as (c' & Hc' & Hnew & ->).
    destruct found0.
    + apply mret_Ok in Ha as [<- <-].
      assert (c' = c) as ->.
      { eapply lookup_weaken in Hl; [| exact Hsub1]. congruence. }
      assert (Hsub2 : h0 ⊆ <[l' := cell_with_selections c sels0]> h0)
        by (by apply insert_subseteq).
      split; [by etrans |].
      split; [by eapply lookup_weaken_None |].
      exists c, sels, sels0. split; [by eapply lookup_weaken |].
      split; [done |]. split; [apply lookup_insert_eq |].
      left. eapply Forall2_impl; [exact Hall |]. intros x x' Hx.
      by eapply shared_selection_mono.
    + rewrite (Hsame eq_refl) in *. clear Hsame.
      inv_M Ha. apply alloc_Ok in Ha0 as [Hnew_sel ->]. rename a into new_sel.
      apply mret_Ok in Ha as [<- <-].
      set (h2 := <[new_sel := new_filter_selection f d]> h0) in *.
      assert (Hsub2 : h0 ⊆ h2) by (by apply insert_subseteq).
      assert (c' = c) as ->.
      { eapply lookup_weaken in Hl; [| by etrans]. congruence. }
      assert (Hsub3 : h2 ⊆ <[l' := cell_with_selections c (new_sel :: sels)]> h2)
        by (by apply insert_subseteq).
      assert (Hsub13 : h ⊆ <[l' := cell_with_selections c (new_sel :: sels)]> h2)
        by (etrans; [exact Hsub1 | etrans; [exact Hsub2 | exact Hsub3]]).
      split; [exact Hsub13 |].
      split; [eapply lookup_weaken_None; [exact Hnew |];
              etrans; [exact Hsub1 | exact Hsub2] |].
      exists c, sels, (new_sel :: sels).
      split; [eapply lookup_weaken; [exact Hl | exact Hsub13] |].
      split; [done |]. split; [apply lookup_insert_eq |].
      right. exists new_sel. split; [by eapply lookup_weaken_None |].
      split; [| done].
      eapply lookup_weaken; [| exact Hsub3]. apply lookup_insert_eq.
  - simpl in H. inv_M H. apply load_Ok in Ha as [Hl ->]. rename a into c.
    destruct (is_selection_capable c); simpl in H;
      [| raised H].
    inv_M H. apply lift_Ok in Ha as [Hss ->].
    destruct a as [sels |]; [| raised H].
    inv_M H. destruct a as [[sels0 rem0] found0].
    apply (descend_selections_frame _ _ (fun h h' => rebuilt h h' path f d))
      in Ha as (Hsub1 & Hall).
    2:{ intros s hs s' r hs' Hs. by apply IH in Hs. }
    2:{ intros ? ? ? ? ? ? ? ? ?. by eapply rebuilt_mono. }
    destruct found0; [| raised H].
    inv_M H. rename a into new_ast.
    apply mret_Ok in H as [[= -> ->] <-].
    apply rebuild_Ok in Ha as (c' & Hc' & Hnew & ->).
    assert (c' = c) as ->.
    { eapply lookup_weaken in Hl; [| exact Hsub1]. congruence. }
    assert (Hsub2 : h0 ⊆ <[l' := cell_with_selections c sels0]> h0)
      by (by apply insert_subseteq).
    split; [by etrans |].
    split; [by eapply lookup_weaken_None |].
    exists c, sels, sels0. split; [by eapply lookup_weaken |].
    split; [done |]. split; [apply lookup_insert_eq |].
    eapply Forall2_impl; [exact Hall |].
    intros x x' (cx & Hcx & Hx). exists cx.
    split; [by eapply lookup_weaken |].
    destruct (decide (get_ast_field_name cx = Ok seg)); [| done].
    by eapply rebuilt_mono.
Qed.

(** C7. Where [generate_parameterized_queries] returns, every object of the
    store it was given is there as it was: the nodes of the original AST and
    the original parameter dictionary among them. The documents and
    dictionaries of the two queries are new objects; each new root is rebuilt
    along the path only: off the path, and at the target vertex for every
    selection but those on the pagination field, the selections of the output
    are the very objects of the input. *)
Theorem generate_parameterized_queries_frame {SchemaInfoT} (s : SchemaInfoT)
    query vp (h : Heap) page rem name h' :
  generate_parameterized_queries s query vp h = Ok ((page, rem, name), h') ->
  h ⊆ h' /\
  exists query_type page_root rem_root items,
    get_only_query_definition h (query_ast query) = Ok query_type /\
    h !! parameters query = Some (DictCell items) /\
    h' !! parameters query = Some (DictCell items) /\
    h !! query_ast page = None /\
    h !! query_ast rem = None /\
    h !! parameters page = None /\
    h !! parameters rem = None /\
    h' !! query_ast page = Some (DocumentCell [page_root]) /\
    h' !! query_ast rem = Some (DocumentCell [rem_root]) /\
    rebuilt h h' (query_path vp) (pagination_field vp)
      (_make_binary_filter_directive_node "<" name) query_type page_root /\
    rebuilt h h' (query_path vp) (pagination_field vp)
      (_make_binary_filter_directive_node ">=" name) query_type rem_root.
Proof.
  intros H. unfold generate_parameterized_queries in H.
  inv_M H. apply lift_Ok in Ha as [Hq ->]. rename a into query_type.
  inv_M H. apply load_dict_Ok in Ha as [Hitems ->]. rename a into items.
  destruct (_generate_new_name _ _) as [param_name |]; [| raised H].
  inv_M H. destruct a as [page_root page_removed].
  apply add_pagination_filter_frame in Ha as [Hsub1 Hpage].
  inv_M H. destruct a as [rem_root rem_removed].
  apply add_pagination_filter_frame in Ha as [Hsub2 Hrem].
  inv_M H. rename a into page_items. apply load_dict_Ok in Ha as [_ ->].
  inv_M H. rename a into page_dict. apply alloc_Ok in Ha as [Hnew1 ->].
  inv_M H. rename a into rem_items. apply load_dict_Ok in Ha as [_ ->].
  inv_M H. rename a into rem_dict. apply alloc_Ok in Ha as [Hnew2 ->].
  inv_M H. rename a into page_doc. apply alloc_Ok in Ha as [Hnew3 ->].
  inv_M H. rename a into rem_doc. apply alloc_Ok in Ha as [Hnew4 ->].
  apply mret_Ok in H as [[= <- <- <-] <-]. simpl.
  set (hB := <[page_dict := _]> h1) in *.
  set (hC := <[rem_dict := _]> hB) in *.
  set (hD := <[page_doc := _]> hC) in *.
  set (hE := <[rem_doc := _]> hD).
  assert (S1 : h1 ⊆ hB) by (by apply insert_subseteq).
  assert (S2 : hB ⊆ hC) by (by apply insert_subseteq).
  assert (S3 : hC ⊆ hD) by (by apply insert_subseteq).
  assert (S4 : hD ⊆ hE) by (by apply insert_subseteq).
  assert (S12 : h1 ⊆ hC) by (etrans; [exact S1 | exact S2]).
  assert (S13 : h1 ⊆ hD) by (etrans; [exact S12 | exact S3]).
  assert (S14 : h1 ⊆ hE) by (etrans; [exact S13 | exact S4]).
  assert (T1 : h ⊆ h1) by (etrans; [exact Hsub1 | exact Hsub2]).
  assert (T0 : h0 ⊆ hE) by (etrans; [exact Hsub2 | exact S14]).
  assert (T : h ⊆ hE) by (etrans; [exact T1 | exact S14]).
  split; [exact T |].
  exists query_type, page_root, rem_root, items.
  split; [done |]. split; [done |].
  split; [eapply lookup_weaken; [exact Hitems | exact T] |].
  split; [eapply lookup_weaken_None; [exact Hnew3 |];
          etrans; [exact T1 | exact S12] |].
  split; [eapply lookup_weaken_None; [exact Hnew4 |];
          etrans; [exact T1 | exact S13] |].
  split; [eapply lookup_weaken_None; [exact Hnew1 | exact T1] |].
  split; [eapply lookup_weaken_None; [exact Hnew2 |];
          etrans; [exact T1 | exact S1] |].
  split; [eapply lookup_weaken; [apply lookup_insert_eq | exact S4] |].
  split; [apply lookup_insert_eq |].
  split.
  - eapply rebuilt_mono; [exact Hpage | done | exact T0].
  - eapply rebuilt_mono; [exact Hrem | exact Hsub1 | exact S14].
Qed.

End StoreFacts.

(** On the example store the two queries are built from new objects, and the
    selection [name] of the vertex, at 5, is shared by both. *)
Lemma generate_parameterized_queries_frame_witness :
  exists page rem h',
    Store.generate_parameterized_queries (CH := example_compiler_helpers)
      (SAM := example_store_ast_manipulation) tt example_store_query
      example_partition example_store
    = Ok ((page, rem, "__paged_param_0"), h') /\
    example_store ⊆ h' /\
    example_store !! Store.query_ast page = None /\
    example_store !! Store.query_ast rem = None.
Proof.
  assert (Hrun : exists page rem h',
    Store.generate_parameterized_queries (CH := example_compiler_helpers)
      (SAM := example_store_ast_manipulation) tt example_store_query
      example_partition example_store
    = Ok ((page, rem, "__paged_param_0"), h')).
  { eexists _, _, _. vm_compute. reflexivity. }
  destruct Hrun as (page & rem & h' & Hrun).
  exists page, rem, h'. split; [exact Hrun |].
  destruct (generate_parameterized_queries_frame
              (CH := example_compiler_helpers)
              (SAM := example_store_ast_manipulation)
              tt example_store_query example_partition example_store
              page rem "__paged_param_0" h' Hrun)
    as (Hsub & qt & pr & rr & items & _ & _ & _ & Hp & Hr & _).
  split; [exact Hsub |]. split; [exact Hp | exact Hr].
Defined.

(** * Further properties *)

(** ** Name generation *)

(** X4. For every base name and every set of taken names,
    [_generate_new_name] returns the first free name [base_i]; it tries at
    most one name more than there are taken names: [i <= len(taken_names)]. *)
Theorem generate_new_name_bounded base (taken : gset string) :
  exists i,
    _generate_new_name base taken = Some (format_name base i) /\
    (i <= size taken)%nat /\
    (format_name base i ∉ taken) /\
    (forall j, (j < i)%nat -> format_name base j ∈ taken).
Proof.
  destruct (generate_new_name_spec base taken) as (i & Hi & Hout & Hbelow).
  exists i. split; [done |]. split; [| done].
  by apply (tried_names_bound base).
Qed.

(** ** Filters and pruning *)

Section ParameterizerExtras.
Context {CH : CompilerHelpers} {AM : AstManipulation}.

(** X5. [_get_binary_filter_node_parameter] raises [IndexError] on a directive
    with fewer than two arguments and [AssertionError] when the list of the
    second argument does not hold exactly one value; on a list of one string
    it returns what [get_parameter_name] makes of that string. *)
Theorem get_binary_filter_node_parameter_failures directive :
  (length (directive_arguments directive) < 2 ->
   _get_binary_filter_node_parameter directive = Raise IndexError)%nat /\
  (forall a values,
     directive_arguments directive !! 1%nat = Some a ->
     argument_value a = ListValueNode values ->
     length values <> 1%nat ->
     _get_binary_filter_node_parameter directive = Raise AssertionError) /\
  (forall a s,
     directive_arguments directive !! 1%nat = Some a ->
     argument_value a = ListValueNode [StringValueNode s] ->
     _get_binary_filter_node_parameter directive = get_parameter_name s).
Proof.
  unfold _get_binary_filter_node_parameter, item. split; [| split].
  - intros Hlen. by rewrite lookup_ge_None_2 by lia.
  - intros a values Ha Hv Hlen. rewrite Ha. simpl. rewrite Hv. simpl.
    destruct (Nat.eqb_spec (length values) 1); [done | done].
  - intros a s Ha Hv. rewrite Ha. simpl. rewrite Hv. simpl.
    by destruct (get_parameter_name s).
Qed.

(** X6. The pruning loop loses no directive: each one is either kept, in its
    place, or has its parameter name recorded; no directive kept has the
    comparator of the directive being inserted. *)
Theorem prune_directives_partition d ds kept removed :
  prune_directives d ds = Ok (kept, removed) ->
  (length kept + length removed = length ds)%nat /\
  kept `sublist_of` ds /\
  Forall (fun x => ~ same_operation d x) kept.
Proof.
  intros H. apply prune_directives_spec in H as [-> Hrem].
  apply Forall2_length in Hrem. rewrite <- Hrem.
  split; [| split].
  - clear Hrem. induction ds as [| x ds IH]; [done |].
    rewrite !filter_cons.
    destruct (decide (~ same_operation d x)), (decide (same_operation d x));
      simpl; try lia; tauto.
  - apply sublist_filter.
  - apply Forall_forall. intros x Hx. by apply list_elem_of_filter in Hx as [? _].
Qed.

Lemma prune_directives_same_operation d1 d2 ds :
  _get_filter_node_operation d1 = _get_filter_node_operation d2 ->
  prune_directives d1 ds = prune_directives d2 ds.
Proof.
  intros Hop. induction ds as [| x ds IH]; [done |].
  simpl. rewrite IH, Hop. done.
Qed.

Lemma prune_directives_kept_again d ds kept removed tail :
  prune_directives d ds = Ok (kept, removed) ->
  prune_directives d (kept ++ tail) =
  ('(k, r) ← prune_directives d tail; Ok (kept ++ k, r)).
Proof.
  revert kept removed. induction ds as [| x ds IH]; intros kept removed H.
  - simpl in H. injection H as <- <-. simpl.
    by destruct (prune_directives d tail) as [[k r] |].
  - simpl in H. inv_bind H. rename a into op. inv_bind H. rename a into op_add.
    destruct (decide (op = op_add)) as [Heq | Hne].
    + inv_bind H. inv_bind H. destruct a0 as [kept' removed'].
      injection H as <- <-. by eapply IH.
    + inv_bind H. destruct a as [kept' removed'].
      injection H as <- <-. simpl. rewrite Ha, Ha0. simpl.
      rewrite decide_False by done.
      rewrite (IH _ _ Ha1).
      by destruct (prune_directives d tail) as [[k r] |].
Qed.

(** X7. Pruning for a second filter of the same comparator, after a first
    one was appended, keeps the directives kept before and removes exactly
    the filter appended first. *)
Theorem prune_directives_replaces_injected op_name p1 p2 ds kept removed r :
  prune_directives (_make_binary_filter_directive_node op_name p1) ds
    = Ok (kept, removed) ->
  get_parameter_name ("$" +:+ p1) = Ok r ->
  prune_directives (_make_binary_filter_directive_node op_name p2)
    (kept ++ [_make_binary_filter_directive_node op_name p1])
    = Ok (kept, [r]).
Proof.
  intros H Hr.
  rewrite (prune_directives_same_operation _
             (_make_binary_filter_directive_node op_name p2)) in H by done.
  rewrite (prune_directives_kept_again _ _ _ _ _ H).
  simpl. rewrite decide_True by done.
  change (_get_binary_filter_node_parameter
            (_make_binary_filter_directive_node op_name p1))
    with (get_parameter_name ("$" +:+ p1)).
  rewrite Hr. simpl. by rewrite app_nil_r.
Qed.

End ParameterizerExtras.

(** ** The rewrite *)

Section RewriteExtras.
Context {CH : CompilerHelpers} {AM : AstManipulation}.

Lemma descend_selections_no_match recurse seg sels :
  Forall (fun s => exists nm, get_ast_field_name s = Ok nm /\ nm <> seg) sels ->
  descend_selections recurse seg sels = Ok (sels, [], false).
Proof.
  induction 1 as [| s sels (nm & Hnm & Hne) _ IH]; [done |].
  simpl. rewrite Hnm. simpl. rewrite decide_False by done. by rewrite IH.
Qed.

Lemma filter_target_selections_no_match f d sels :
  Forall (fun s => exists nm, get_ast_field_name s = Ok nm /\ nm <> f) sels ->
  filter_target_selections f d sels = Ok (sels, [], false).
Proof.
  induction 1 as [| s sels (nm & Hnm & Hne) _ IH]; [done |].
  simpl. rewrite Hnm. simpl. rewrite decide_False by done. by rewrite IH.
Qed.

(** X8. [_add_pagination_filter] raises [AssertionError] on a node that is no
    field, inline fragment or operation; on a node without selection set it
    raises [AttributeError] at the end of the path and [AssertionError]
    before it; it raises [AssertionError] when no selection bears the next
    name of the path. *)
Theorem add_pagination_filter_failures n path f d :
  (is_selection_capable n = false ->
   _add_pagination_filter n path f d = Raise AssertionError) /\
  (is_selection_capable n = true -> selection_set_of n = None ->
   _add_pagination_filter n path f d =
   Raise (if path is [] then AttributeError else AssertionError)) /\
  (forall seg rest sels,
     is_selection_capable n = true ->
     path = seg :: rest ->
     selection_set_of n = Some sels ->
     Forall (fun s => exists nm, get_ast_field_name s = Ok nm /\ nm <> seg)
       sels ->
     _add_pagination_filter n path f d = Raise AssertionError).
Proof.
  split; [| split].
  - intros Hcap. destruct path; simpl; by rewrite Hcap.
  - intros Hcap Hss. destruct path; simpl; by rewrite Hcap, Hss.
  - intros seg rest sels Hcap -> Hss Hall. simpl. rewrite Hcap, Hss. simpl.
    by rewrite descend_selections_no_match.
Qed.

(** X9. At a vertex none of whose selections is on the pagination field the
    rewrite succeeds, puts the new filter selection first, keeps every
    selection and removes no parameter. *)
Theorem add_pagination_filter_absent_field v f d sels :
  is_selection_capable v = true ->
  selection_set_of v = Some sels ->
  Forall (fun s => exists nm, get_ast_field_name s = Ok nm /\ nm <> f) sels ->
  _add_pagination_filter v [] f d =
  Ok (copy_with_selections v (new_filter_selection f d :: sels), []).
Proof.
  intros Hcap Hss Hall. simpl. rewrite Hcap, Hss. simpl.
  by rewrite filter_target_selections_no_match.
Qed.

Lemma descend_selections_shape recurse seg sels sels' removed found :
  descend_selections recurse seg sels = Ok (sels', removed, found) ->
  length sels' = length sels /\
  forall i s, sels !! i = Some s -> get_ast_field_name s <> Ok seg ->
              sels' !! i = Some s.
Proof.
  revert sels' removed found.
  induction sels as [| x sels IH]; intros sels' removed found H.
  - simpl in H. injection H as <- <- <-. done.
  - simpl in H. inv_bind H. rename a into nm.
    destruct (decide (nm = seg)) as [-> | Hne].
    + inv_bind H. destruct a as [x' rx]. inv_bind H.
      destruct a as [[sels0 r0] f0]. injection H as <- <- <-.
      destruct (IH _ _ _ Ha1) as [Hlen Hsame]. split; [simpl; lia |].
      intros [| i] s Hs Hn; simpl in *.
      * injection Hs as ->. congruence.
      * by apply Hsame.
    + inv_bind H. destruct a as [[sels0 r0] f0]. injection H as <- <- <-.
      destruct (IH _ _ _ Ha0) as [Hlen Hsame]. split; [simpl; lia |].
      intros [| i] s Hs Hn; simpl in *; [done |]. by apply Hsame.
Qed.

Lemma directives_of_copy_with_selections n sels :
  directives_of (copy_with_selections n sels) = directives_of n.
Proof. by destruct n. Qed.

(** X10. Above the target vertex the rewrite keeps the directives of the node
    and the number of its selections; a selection that does not bear the
    next name of the path is found unchanged at its position. *)
Theorem add_pagination_filter_off_path n seg rest f d n' removed :
  _add_pagination_filter n (seg :: rest) f d = Ok (n', removed) ->
  exists sels sels',
    selection_set_of n = Some sels /\
    n' = copy_with_selections n sels' /\
    selection_set_of n' = Some sels' /\
    directives_of n' = directives_of n /\
    length sels' = length sels /\
    forall i s, sels !! i = Some s -> get_ast_field_name s <> Ok seg ->
                sels' !! i = Some s.
Proof.
  intros H. simpl in H.
  destruct (is_selection_capable n) eqn:Hcap; [simpl in H | done].
  destruct (selection_set_of n) as [sels |] eqn:Hss; [| done].
  inv_bind H. destruct a as [[sels' r0] found0].
  destruct found0; [| done]. injection H as <- <-.
  apply descend_selections_shape in Ha as [Hlen Hsame].
  exists sels, sels'. split; [done |]. split; [done |].
  split; [by apply selection_set_of_copy |].
  split; [apply directives_of_copy_with_selections | done].
Qed.

End RewriteExtras.

(** ** Paginating a paginated query *)

Section Repagination.
Context {CH : CompilerHelpers} {AM : AstManipulation}.

(** The field name of a node depends neither on its directives nor on its
    selections, and a new filter selection bears the name it is made for. *)
Hypothesis name_of_copy_with_directives : forall n ds,
  get_ast_field_name (copy_with_directives n ds) = get_ast_field_name n.
Hypothesis name_of_copy_with_selections : forall n sels,
  get_ast_field_name (copy_with_selections n sels) = get_ast_field_name n.
Hypothesis name_of_new_filter_selection : forall f d,
  get_ast_field_name (new_filter_selection f d) = Ok f.

Lemma copy_with_directives_twice n ds ds' :
  copy_with_directives (copy_with_directives n ds) ds' =
  copy_with_directives n ds'.
Proof. by destruct n. Qed.

Lemma copy_with_selections_twice n sels sels' :
  copy_with_selections (copy_with_selections n sels) sels' =
  copy_with_selections n sels'.
Proof. by destruct n. Qed.

Lemma is_selection_capable_copy n sels :
  is_selection_capable (copy_with_selections n sels) = is_selection_capable n.
Proof. by destruct n. Qed.

Lemma filter_target_selections_not_found f d sels sels' removed :
  filter_target_selections f d sels = Ok (sels', removed, false) ->
  Forall (fun s => exists nm, get_ast_field_name s = Ok nm /\ nm <> f) sels.
Proof.
  revert sels' removed. induction sels as [| s sels IH]; intros sels' removed H;
    [constructor |].
  simpl in H. inv_bind H. rename a into nm.
  destruct (decide (nm = f)) as [-> | Hne].
  - inv_bind H. destruct a as [kept rem_s]. inv_bind H.
    destruct a as [[sels0 rem0] found0]. done.
  - inv_bind H. destruct a as [[sels0 rem0] found0]. injection H as <- <- ->.
    constructor; [by eauto | by eapply IH].
Qed.

Lemma add_pagination_filter_result_name path n f d n' removed :
  _add_pagination_filter n path f d = Ok (n', removed) ->
  get_ast_field_name n' = get_ast_field_name n.
Proof.
  intros H. destruct path as [| seg path]; simpl in H;
    destruct (is_selection_capable n); try done; simpl in H;
    destruct (selection_set_of n); try done;
    inv_bind H; destruct a as [[sels0 rem0] found0].
  - injection H as <- <-. apply name_of_copy_with_selections.
  - destruct found0; [| done]. injection H as <- <-.
    apply name_of_copy_with_selections.
Qed.

Lemma filter_target_selections_new_first f d1 d2 r sels :
  get_ast_field_name (new_filter_selection f d1) = Ok f ->
  prune_directives d2 [d1] = Ok ([], [r]) ->
  filter_target_selections f d2 (new_filter_selection f d1 :: sels) =
  ('(new_selections, removed_rest, _) ← filter_target_selections f d2 sels;
   Ok (new_filter_selection f d2 :: new_selections, [r] ++ removed_rest, true)).
Proof.
  intros Hname Hprune.
  change (filter_target_selections f d2 (new_filter_selection f d1 :: sels))
    with (field_name ← get_ast_field_name (new_filter_selection f d1);
          if decide (field_name = f) then
            '(new_directives, removed) ← prune_directives d2 [d1];
            '(new_selections, removed_rest, _) ←
              filter_target_selections f d2 sels;
            Ok (copy_with_directives (new_filter_selection f d1)
                  (new_directives ++ [d2]) :: new_selections,
                removed ++ removed_rest, true)
          else
            '(new_selections, removed_rest, found_field) ←
              filter_target_selections f d2 sels;
            Ok (new_filter_selection f d1 :: new_selections,
                removed_rest, found_field)).
  rewrite Hname, Hprune. unfold mbind at 1 2, result_bind.
  by rewrite decide_True.
Qed.

Section SameComparator.

(** [d1] is the filter inserted first, [d2] the one inserted next; they have
    the same comparator, and pruning for [d2] removes [d1], recording [r]. *)
Variables (d1 d2 : DirectiveNode) (r : string).
Hypothesis same_comparator :
  _get_filter_node_operation d1 = _get_filter_node_operation d2.
Hypothesis first_removed : prune_directives d2 [d1] = Ok ([], [r]).

Lemma prune_directives_after_first ds kept removed :
  prune_directives d1 ds = Ok (kept, removed) ->
  prune_directives d2 ds = Ok (kept, removed) /\
  prune_directives d2 (kept ++ [d1]) = Ok (kept, [r]).
Proof.
  intros H.
  rewrite (prune_directives_same_operation d1 d2 ds same_comparator) in H.
  split; [done |].
  rewrite (prune_directives_kept_again _ _ _ _ _ H), first_removed. simpl.
  by rewrite app_nil_r.
Qed.

Lemma filter_target_selections_again f sels sels1 r1 found :
  filter_target_selections f d1 sels = Ok (sels1, r1, found) ->
  exists sels2 r2,
    filter_target_selections f d2 sels1 = Ok (sels2, r2, found) /\
    filter_target_selections f d2 sels = Ok (sels2, r1, found).
Proof.
  revert sels1 r1 found.
  induction sels as [| s sels IH]; intros sels1 r1 found H.
  - simpl in H. injection H as <- <- <-. by exists [], [].
  - simpl in H. inv_bind H. rename a into nm.
    destruct (decide (nm = f)) as [-> | Hne].
    + inv_bind H. destruct a as [kept rem_s]. inv_bind H.
      destruct a as [[sels0 rem0] found0]. injection H as <- <- <-.
      destruct (IH _ _ _ Ha1) as (sels2 & r2 & Hagain & Hdirect).
      destruct (prune_directives_after_first _ _ _ Ha0) as [Hp2 Hp21].
      exists (copy_with_directives s (kept ++ [d2]) :: sels2), ([r] ++ r2).
      split.
      * simpl. rewrite name_of_copy_with_directives, Ha. simpl.
        rewrite decide_True by done.
        rewrite directives_of_copy_with_directives, Hp21.
        simpl. rewrite Hagain. simpl.
        by rewrite copy_with_directives_twice.
      * simpl. rewrite Ha. simpl. rewrite decide_True by done.
        rewrite Hp2. simpl. by rewrite Hdirect.
    + inv_bind H. destruct a as [[sels0 rem0] found0]. injection H as <- <- <-.
      destruct (IH _ _ _ Ha0) as (sels2 & r2 & Hagain & Hdirect).
      exists (s :: sels2), r2.
      split; simpl; rewrite Ha; simpl; rewrite decide_False by done.
      * by rewrite Hagain.
      * by rewrite Hdirect.
Qed.

Lemma descend_selections_again (rec1 rec2 : Node -> result (Node * list string))
    seg sels sels1 r1 found :
  (forall s s1 rs, rec1 s = Ok (s1, rs) ->
     get_ast_field_name s1 = get_ast_field_name s /\
     exists s2 rs2, rec2 s1 = Ok (s2, rs2) /\ rec2 s = Ok (s2, rs)) ->
  descend_selections rec1 seg sels = Ok (sels1, r1, found) ->
  exists sels2 r2,
    descend_selections rec2 seg sels1 = Ok (sels2, r2, found) /\
    descend_selections rec2 seg sels = Ok (sels2, r1, found).
Proof.
  intros Hrec. revert sels1 r1 found.
  induction sels as [| s sels IH]; intros sels1 r1 found H.
  - simpl in H. injection H as <- <- <-. by exists [], [].
  - simpl in H. inv_bind H. rename a into nm.
    destruct (decide (nm = seg)) as [-> | Hne].
    + inv_bind H. destruct a as [s1 rs]. inv_bind H.
      destruct a as [[sels0 rem0] found0]. injection H as <- <- <-.
      destruct (IH _ _ _ Ha1) as (sels2 & r2 & Hagain & Hdirect).
      destruct (Hrec s s1 rs Ha0) as (Hname & s2 & rs2 & H2 & H2').
      exists (s2 :: sels2), (rs2 ++ r2). split.
      * simpl. rewrite Hname, Ha. simpl. rewrite decide_True by done.
        rewrite H2. simpl. by rewrite Hagain.
      * simpl. rewrite Ha. simpl. rewrite decide_True by done.
        rewrite H2'. simpl. by rewrite Hdirect.
    + inv_bind H. destruct a as [[sels0 rem0] found0]. injection H as <- <- <-.
      destruct (IH _ _ _ Ha0) as (sels2 & r2 & Hagain & Hdirect).
      exists (s :: sels2), r2.
      split; simpl; rewrite Ha; simpl; rewrite decide_False by done.
      * by rewrite Hagain.
      * by rewrite Hdirect.
Qed.

Lemma add_pagination_filter_again_aux path root f root1 r1 :
  _add_pagination_filter root path f d1 = Ok (root1, r1) ->
  exists root2 r2,
    _add_pagination_filter root1 path f d2 = Ok (root2, r2) /\
    _add_pagination_filter root path f d2 = Ok (root2, r1).
Proof.
  revert root root1 r1.
  induction path as [| seg path IH]; intros root root1 r1 H.
  - simpl in H.
    destruct (is_selection_capable root) eqn:Hcap; [simpl in H | done].
    destruct (selection_set_of root) as [sels |] eqn:Hss; [| done].
    inv_bind H. destruct a as [[sels1 rem1] found1]. injection H as <- <-.
    destruct found1.
    + destruct (filter_target_selections_again _ _ _ _ _ Ha)
        as (sels2 & r2 & Hagain & Hdirect).
      exists (copy_with_selections root sels2), r2. split.
      * simpl. rewrite is_selection_capable_copy, Hcap. simpl.
        rewrite selection_set_of_copy by done. rewrite Hagain. simpl.
        by rewrite copy_with_selections_twice.
      * simpl. rewrite Hcap, Hss. simpl. by rewrite Hdirect.
    + pose proof (filter_target_selections_not_found _ _ _ _ _ Ha) as Hno.
      rewrite (filter_target_selections_no_match f d1 sels Hno) in Ha.
      injection Ha as <- <-.
      exists (copy_with_selections root (new_filter_selection f d2 :: sels)),
        [r].
      split.
      * simpl. rewrite is_selection_capable_copy, Hcap. simpl.
        rewrite selection_set_of_copy by done.
        rewrite (filter_target_selections_new_first f d1 d2 r sels);
          [| apply name_of_new_filter_selection | exact first_removed].
        rewrite (filter_target_selections_no_match f d2 sels Hno). simpl.
        by rewrite copy_with_selections_twice.
      * simpl. rewrite Hcap, Hss. simpl.
        by rewrite (filter_target_selections_no_match f d2 sels Hno).
  - simpl in H.
    destruct (is_selection_capable root) eqn:Hcap; [simpl in H | done].
    destruct (selection_set_of root) as [sels |] eqn:Hss; [| done].
    inv_bind H. destruct a as [[sels1 rem1] found1].
    destruct found1; [| done]. injection H as <- <-.
    eapply (descend_selections_again _
              (fun s => _add_pagination_filter s path f d2)) in Ha
      as (sels2 & r2 & Hagain & Hdirect).
    2:{ intros s s1 rs Hs. split.
        - by eapply add_pagination_filter_result_name.
        - by apply IH. }
    exists (copy_with_selections root sels2), r2. split.
    + simpl. rewrite is_selection_capable_copy, Hcap. simpl.
      rewrite selection_set_of_copy by done. rewrite Hagain. simpl.
      by rewrite copy_with_selections_twice.
    + simpl. rewrite Hcap, Hss. simpl. by rewrite Hdirect.
Qed.

End SameComparator.

(** X11. Paginating again replaces, it does not stack: after a filter of some
    comparator was inserted along a path, inserting a filter of this
    comparator for another parameter along the same path succeeds and gives
    the very AST that inserting the second filter into the original gives,
    with the same parameters removed from the original. *)
Theorem add_pagination_filter_again op_name p1 p2 r path root f root1 r1 :
  get_parameter_name ("$" +:+ p1) = Ok r ->
  _add_pagination_filter root path f
    (_make_binary_filter_directive_node op_name p1) = Ok (root1, r1) ->
  exists root2 r2,
    _add_pagination_filter root1 path f
      (_make_binary_filter_directive_node op_name p2) = Ok (root2, r2) /\
    _add_pagination_filter root path f
      (_make_binary_filter_directive_node op_name p2) = Ok (root2, r1).
Proof.
  intros Hr H.
  eapply (add_pagination_filter_again_aux
            (_make_binary_filter_directive_node op_name p1)
            (_make_binary_filter_directive_node op_name p2) r);
    [reflexivity | | exact H].
  simpl. rewrite decide_True by done.
  change (_get_binary_filter_node_parameter
            (_make_binary_filter_directive_node op_name p1))
    with (get_parameter_name ("$" +:+ p1)).
  by rewrite Hr.
Qed.

End Repagination.

(** ** Instances of the further properties of the parameterizer *)

Lemma get_binary_filter_node_parameter_failures_witness :
  _get_binary_filter_node_parameter (CH := example_compiler_helpers)
    (output_directive "animal") = Raise IndexError /\
  _get_binary_filter_node_parameter (CH := example_compiler_helpers)
    (mkDirectiveNode "filter"
       [mkArgumentNode "op_name" (StringValueNode "between");
        mkArgumentNode "value"
          (ListValueNode [StringValueNode "$lower"; StringValueNode "$upper"])])
    = Raise AssertionError /\
  _get_binary_filter_node_parameter (CH := example_compiler_helpers)
    (_make_binary_filter_directive_node "<" "old") = Ok "old".
Proof.
  split; [| split].
  - apply (get_binary_filter_node_parameter_failures
             (CH := example_compiler_helpers)). simpl. lia.
  - eapply (proj1 (proj2 (get_binary_filter_node_parameter_failures
                            (CH := example_compiler_helpers) _)));
      [reflexivity | reflexivity | simpl; lia].
  - rewrite (proj2 (proj2 (get_binary_filter_node_parameter_failures
                             (CH := example_compiler_helpers)
                             (_make_binary_filter_directive_node "<" "old")))
               _ "$old" eq_refl eq_refl).
    reflexivity.
Defined.

Lemma prune_directives_partition_witness :
  (length [_make_binary_filter_directive_node ">=" "low"] + length ["old"]
   = 2)%nat /\
  [_make_binary_filter_directive_node ">=" "low"] `sublist_of`
    [_make_binary_filter_directive_node "<" "old";
     _make_binary_filter_directive_node ">=" "low"] /\
  Forall
    (fun x => ~ same_operation
                  (_make_binary_filter_directive_node "<" "__paged_param_0") x)
    [_make_binary_filter_directive_node ">=" "low"].
Proof.
  apply (prune_directives_partition (CH := example_compiler_helpers)
           (_make_binary_filter_directive_node "<" "__paged_param_0")
           [_make_binary_filter_directive_node "<" "old";
            _make_binary_filter_directive_node ">=" "low"]
           [_make_binary_filter_directive_node ">=" "low"] ["old"]).
  reflexivity.
Defined.

Lemma prune_directives_replaces_injected_witness :
  prune_directives (CH := example_compiler_helpers)
    (_make_binary_filter_directive_node "<" "__paged_param_1")
    ([_make_binary_filter_directive_node ">=" "low"] ++
     [_make_binary_filter_directive_node "<" "__paged_param_0"])
  = Ok ([_make_binary_filter_directive_node ">=" "low"], ["__paged_param_0"]).
Proof.
  apply (prune_directives_replaces_injected (CH := example_compiler_helpers)
           "<" "__paged_param_0" "__paged_param_1"
           [_make_binary_filter_directive_node "<" "old";
            _make_binary_filter_directive_node ">=" "low"]
           [_make_binary_filter_directive_node ">=" "low"] ["old"]
           "__paged_param_0");
    reflexivity.
Defined.

Lemma add_pagination_filter_failures_witness :
  _add_pagination_filter (CH := example_compiler_helpers)
    (AM := example_ast_manipulation) (FragmentSpreadNode "AnimalFields" [])
    [] "uuid" (_make_binary_filter_directive_node "<" "p")
  = Raise AssertionError /\
  _add_pagination_filter (CH := example_compiler_helpers)
    (AM := example_ast_manipulation)
    (FieldNode None "name" (Some []) [output_directive "animal"] None)
    [] "uuid" (_make_binary_filter_directive_node "<" "p")
  = Raise AttributeError /\
  _add_pagination_filter (CH := example_compiler_helpers)
    (AM := example_ast_manipulation) example_plain_root
    ["Species"] "uuid" (_make_binary_filter_directive_node "<" "p")
  = Raise AssertionError.
Proof.
  split; [| split].
  - by apply (add_pagination_filter_failures (CH := example_compiler_helpers)
                (AM := example_ast_manipulation)).
  - by apply (proj1 (proj2 (add_pagination_filter_failures
                              (CH := example_compiler_helpers)
                              (AM := example_ast_manipulation)
                              (FieldNode None "name" (Some [])
                                 [output_directive "animal"] None)
                              [] "uuid"
                              (_make_binary_filter_directive_node "<" "p")))).
  - eapply (proj2 (proj2 (add_pagination_filter_failures
                            (CH := example_compiler_helpers)
                            (AM := example_ast_manipulation)
                            example_plain_root ["Species"] "uuid"
                            (_make_binary_filter_directive_node "<" "p"))));
      [reflexivity | reflexivity | reflexivity |].
    constructor; [| constructor]. exists "Animal". by split.
Defined.

(** Scenario 5 of the spec, at the vertex [Animal] of the plain example. *)
Lemma add_pagination_filter_absent_field_witness :
  _add_pagination_filter (CH := example_compiler_helpers)
    (AM := example_ast_manipulation)
    (FieldNode None "Animal" (Some []) []
       (Some [FieldNode None "name" (Some []) [output_directive "animal"]
                None]))
    [] "uuid" (_make_binary_filter_directive_node "<" "__paged_param_0")
  = Ok (FieldNode None "Animal" (Some []) []
          (Some [FieldNode None "uuid" None
                   [_make_binary_filter_directive_node "<" "__paged_param_0"]
                   None;
                 FieldNode None "name" (Some []) [output_directive "animal"]
                   None]),
        []).
Proof.
  apply (add_pagination_filter_absent_field (CH := example_compiler_helpers)
           (AM := example_ast_manipulation)
           (FieldNode None "Animal" (Some []) []
              (Some [FieldNode None "name" (Some [])
                       [output_directive "animal"] None]))
           "uuid" (_make_binary_filter_directive_node "<" "__paged_param_0")
           [FieldNode None "name" (Some []) [output_directive "animal"] None]);
    [reflexivity | reflexivity |].
  constructor; [| constructor]. exists "name". by split.
Defined.

Lemma add_pagination_filter_off_path_witness :
  exists sels sels',
    selection_set_of
      (OperationDefinitionNode QUERY None []
         (Some [example_filtered_vertex;
                FieldNode None "Species" (Some []) [] (Some [])]))
      = Some sels /\
    length sels' = length sels /\
    sels' !! 1%nat = Some (FieldNode None "Species" (Some []) [] (Some [])).
Proof.
  destruct (add_pagination_filter_off_path (CH := example_compiler_helpers)
              (AM := example_ast_manipulation)
              (OperationDefinitionNode QUERY None []
                 (Some [example_filtered_vertex;
                        FieldNode None "Species" (Some []) [] (Some [])]))
              "Animal" [] "uuid"
              (_make_binary_filter_directive_node "<" "__paged_param_0")
              _ _ eq_refl)
    as (sels & sels' & Hss & _ & _ & _ & Hlen & Hsame).
  exists sels, sels'. split; [exact Hss |]. split; [exact Hlen |].
  injection Hss as <-. by apply Hsame.
Defined.

Lemma example_name_of_copy_with_directives n ds :
  example_get_ast_field_name (copy_with_directives n ds) =
  example_get_ast_field_name n.
Proof. by destruct n. Qed.

Lemma example_name_of_copy_with_selections n sels :
  example_get_ast_field_name (copy_with_selections n sels) =
  example_get_ast_field_name n.
Proof. by destruct n. Qed.

(** The page query of the filtered example, paginated again. *)
Lemma add_pagination_filter_again_witness :
  exists root1 root2 r2,
    _add_pagination_filter (CH := example_compiler_helpers)
      (AM := example_ast_manipulation) example_filtered_root ["Animal"] "uuid"
      (_make_binary_filter_directive_node "<" "__paged_param_0")
    = Ok (root1, ["old"]) /\
    _add_pagination_filter (CH := example_compiler_helpers)
      (AM := example_ast_manipulation) root1 ["Animal"] "uuid"
      (_make_binary_filter_directive_node "<" "__paged_param_1")
    = Ok (root2, r2) /\
    _add_pagination_filter (CH := example_compiler_helpers)
      (AM := example_ast_manipulation) example_filtered_root ["Animal"] "uuid"
      (_make_binary_filter_directive_node "<" "__paged_param_1")
    = Ok (root2, ["old"]).
Proof.
  eexists _. 
  destruct (add_pagination_filter_again (CH := example_compiler_helpers)
              (AM := example_ast_manipulation)
              example_name_of_copy_with_directives
              example_name_of_copy_with_selections
              (fun f d => eq_refl)
              "<" "__paged_param_0" "__paged_param_1" "__paged_param_0"
              ["Animal"] example_filtered_root "uuid" _ ["old"]
              eq_refl eq_refl)
    as (root2 & r2 & Hagain & Hdirect).
  exists root2, r2. split; [reflexivity |]. split; [exact Hagain | exact Hdirect].
Defined.

(** ** The orchestrator: failures and results *)

Section OrchestratorExtras.
Context {CH : CompilerHelpers} {AM : AstManipulation} {CO : Collaborators}.

Lemma paginate_query_ast_small_page qa ps :
  ps < 1 -> paginate_query_ast qa ps = Raise ValueError.
Proof.
  intros Hps. unfold paginate_query_ast. by destruct (Z.ltb_spec ps 1); [| lia].
Qed.

(** X12. [paginate_query_ast] raises [ValueError] for every page size below 1,
    before any collaborator is asked; with a page size of at least 1 and a
    negative cardinality estimate it raises [AssertionError]. *)
Theorem paginate_query_ast_rejects qa ps :
  (ps < 1 -> paginate_query_ast qa ps = Raise ValueError) /\
  (1 <= ps -> (cardinality_estimate qa < 0)%Q ->
   paginate_query_ast qa ps = Raise AssertionError).
Proof.
  split; [apply paginate_query_ast_small_page |].
  unfold paginate_query_ast.
  - intros Hps Hc. destruct (Z.ltb_spec ps 1); [lia |].
    unfold _estimate_number_of_pages.
    destruct (Z.ltb_spec ps 1); [lia |].
    by rewrite (proj2 (Qneg_true _) Hc).
Qed.

(** X13. Whatever [paginate_query_ast] returns has the query of the analysis
    as [whole_query] and the page size asked for as [page_size]; as the call
    for a split raises, what is returned is never split: the page is the
    query itself and there is no remainder. *)
Theorem paginate_query_ast_returns qa ps r advisories :
  paginate_query_ast qa ps = Ok (r, advisories) ->
  whole_query r = ast_with_parameters qa /\
  page_size r = ps /\
  one_page r = ast_with_parameters qa /\
  remainder r = [].
Proof.
  intros H.
  assert (Hps : 1 <= ps).
  { destruct (Z.ltb_spec ps 1) as [Hlt | ]; [| done].
    unfold paginate_query_ast in H.
    by destruct (Z.ltb_spec ps 1); [| lia]. }
  destruct (_estimate_number_of_pages (query_string_with_parameters qa)
              (cardinality_estimate qa) ps) as [num_pages | e] eqn:Hest.
  2:{ unfold paginate_query_ast in H.
      destruct (Z.ltb_spec ps 1); [lia |]. by rewrite Hest in H. }
  rewrite (paginate_query_ast_unfold _ _ _ Hps Hest) in H.
  inv_bind H. destruct a as [[page_query remainder_queries] advs].
  injection H as <- <-. simpl.
  assert (page_query = ast_with_parameters qa /\ remainder_queries = [])
    as [-> ->]; [| done].
  destruct (1 <? num_pages); [| by injection Ha as <- <- _].
  destruct (get_pagination_plan qa num_pages) as [plan advs'].
  destruct (vertex_partitions plan) as [| vp [| vp' vps]];
    [by injection Ha as <- <- _ | | done].
  destruct (generate_parameters_for_vertex_partition _ _ vp) as [| b bs];
    [by injection Ha as <- <- _ | done].
Qed.

Context {TC : TextCollaborators}.

(** X14. [paginate_query] analyzes first: a failure of the analysis is its
    failure, whatever the page size; after a successful analysis a page size
    below 1 gives [ValueError], and any failure of [paginate_query_ast] is
    passed on. *)
Theorem paginate_query_failures schema query ps :
  (forall e, analyze_query_string schema query = Raise e ->
             paginate_query schema query ps = Raise e) /\
  (forall qa e, analyze_query_string schema query = Ok qa ->
                paginate_query_ast qa ps = Raise e ->
                paginate_query schema query ps = Raise e) /\
  (forall qa, analyze_query_string schema query = Ok qa -> ps < 1 ->
              paginate_query schema query ps = Raise ValueError).
Proof.
  unfold paginate_query. split; [| split].
  - intros e He. by rewrite He.
  - intros qa e Hqa He. rewrite Hqa. simpl. by rewrite He.
  - intros qa Hqa Hps. rewrite Hqa. simpl.
    by rewrite (paginate_query_ast_small_page qa ps Hps).
Qed.

(** X15. Whatever [paginate_query] returns has the query text it was given
    as [whole_query] and the page size asked for; its page is the printed
    AST of the page of [paginate_query_ast] with the parameters of that page
    unchanged, and its remainder queries are those of [paginate_query_ast],
    one for one, printed, each with its parameters unchanged. *)
Theorem paginate_query_returns schema query ps r advisories :
  paginate_query schema query ps = Ok (r, advisories) ->
  exists qa ast_result,
    analyze_query_string schema query = Ok qa /\
    paginate_query_ast qa ps = Ok (ast_result, advisories) /\
    whole_query r = query /\
    page_size r = ps /\
    query_string (one_page r) = print_ast (query_ast (one_page ast_result)) /\
    string_parameters (one_page r) = parameters (one_page ast_result) /\
    Forall2
      (fun text ast =>
         query_string text = print_ast (query_ast ast) /\
         string_parameters text = parameters ast)
      (remainder r) (remainder ast_result).
Proof.
  intros H. unfold paginate_query in H.
  inv_bind H. rename a into qa. inv_bind H. destruct a as [ast_result advs].
  injection H as <- <-.
  exists qa, ast_result. simpl. repeat split; try done.
  induction (remainder ast_result) as [| q qs IH]; constructor; done.
Qed.

End OrchestratorExtras.

Lemma paginate_query_ast_rejects_witness :
  paginate_query_ast (CH := example_compiler_helpers)
    (AM := example_ast_manipulation) (CO := example_collaborators)
    (example_analysis 1 (inject_Z 1000)) 0 = Raise ValueError /\
  paginate_query_ast (CH := example_compiler_helpers)
    (AM := example_ast_manipulation) (CO := example_collaborators)
    (example_analysis 1 (- (1 # 2))%Q) 10 = Raise AssertionError.
Proof.
  split.
  - apply (paginate_query_ast_rejects (CH := example_compiler_helpers)
             (AM := example_ast_manipulation) (CO := example_collaborators)).
    lia.
  - apply (paginate_query_ast_rejects (CH := example_compiler_helpers)
             (AM := example_ast_manipulation) (CO := example_collaborators));
      [lia | reflexivity].
Defined.

Lemma paginate_query_ast_returns_witness :
  exists r advisories,
    paginate_query_ast (CH := example_compiler_helpers)
      (AM := example_ast_manipulation) (CO := example_collaborators)
      (example_analysis 0 (inject_Z 1000)) 1 = Ok (r, advisories) /\
    whole_query r = example_plain_query /\
    page_size r = 1 /\
    one_page r = example_plain_query /\
    remainder r = [].
Proof.
  eexists _, _. split; [reflexivity |].
  apply (paginate_query_ast_returns (CH := example_compiler_helpers)
           (AM := example_ast_manipulation) (CO := example_collaborators)
           (example_analysis 0 (inject_Z 1000)) 1 _ _ eq_refl).
Defined.

Lemma paginate_query_failures_witness :
  paginate_query (CH := example_compiler_helpers)
    (AM := example_ast_manipulation) (CO := example_collaborators)
    (TC := example_text_collaborators) (SchemaInfoRef 1)
    (mkQueryStringWithParameters "{ Animal { name } }" ∅) 0
  = Raise ValueError /\
  paginate_query (CH := example_compiler_helpers)
    (AM := example_ast_manipulation) (CO := example_collaborators)
    (TC := example_text_collaborators) (SchemaInfoRef 2)
    (mkQueryStringWithParameters "{ Animal { name } }" ∅) 1
  = Raise NotImplementedError.
Proof.
  split.
  - eapply (proj2 (proj2 (paginate_query_failures
                            (CH := example_compiler_helpers)
                            (AM := example_ast_manipulation)
                            (CO := example_collaborators)
                            (TC := example_text_collaborators) _ _ _)));
      [reflexivity | lia].
  - eapply (proj1 (proj2 (paginate_query_failures
                            (CH := example_compiler_helpers)
                            (AM := example_ast_manipulation)
                            (CO := example_collaborators)
                            (TC := example_text_collaborators) _ _ _)));
      [reflexivity | reflexivity].
Defined.

Lemma paginate_query_returns_witness :
  exists r,
    paginate_query (CH := example_compiler_helpers)
      (AM := example_ast_manipulation) (CO := example_collaborators)
      (TC := example_text_collaborators) (SchemaInfoRef 0)
      (mkQueryStringWithParameters "{ Animal { name } }" ∅) 1
    = Ok (r, [mkPaginationAdvisory "no pagination key"]) /\
    whole_query r = mkQueryStringWithParameters "{ Animal { name } }" ∅ /\
    page_size r = 1.
Proof.
  eexists. split; [reflexivity |].
  destruct (paginate_query_returns (CH := example_compiler_helpers)
              (AM := example_ast_manipulation) (CO := example_collaborators)
              (TC := example_text_collaborators) (SchemaInfoRef 0)
              (mkQueryStringWithParameters "{ Animal { name } }" ∅) 1
              _ _ eq_refl)
    as (qa & ar & _ & _ & Hw & Hp & _).
  split; [exact Hw | exact Hp].
Defined.

(** ** The two embeddings of the rewrite agree *)

Section Refinement.
Context {CH : CompilerHelpers} {AM : AstManipulation}
  {SAM : Store.AstManipulation}.

Lemma represents_mono (h h' : Store.Heap) :
  h ⊆ h' -> forall l t, Store.represents h l t -> Store.represents h' l t.
Proof.
  intros Hsub. fix IH 3. intros l t [l0 t0 lss Hl Hch].
  apply (Store.represents_node h' l0 t0 lss).
  - by eapply lookup_weaken.
  - clear Hl. destruct Hch as [ls ts Hall |]; constructor.
    induction Hall as [| x y ls ts Hxy Hall IHall]; constructor.
    + by apply IH.
    + exact IHall.
Qed.


(** The store helper on the object of a node gives what the helper on trees
    gives on the node. *)
Hypothesis field_name_of_cell : forall t selections,
  Store.get_ast_field_name (Store.cell_of t selections) = get_ast_field_name t.

Lemma cell_of_directives t lss :
  Store.cell_directives (Store.cell_of t lss) = Ok (directives_of t).
Proof. by destruct t. Qed.

Lemma cell_of_capable t lss :
  Store.is_selection_capable (Store.cell_of t lss) = is_selection_capable t.
Proof. by destruct t. Qed.

Lemma cell_of_selection_set t lss :
  is_selection_capable t = true ->
  Store.cell_selection_set (Store.cell_of t lss) = Ok lss.
Proof. by destruct t. Qed.

Lemma cell_of_copy_with_directives t lss ds :
  Store.cell_with_directives (Store.cell_of t lss) ds =
  Store.cell_of (copy_with_directives t ds) lss.
Proof. by destruct t. Qed.

Lemma cell_of_copy_with_selections t lss ls sels :
  is_selection_capable t = true ->
  Store.cell_with_selections (Store.cell_of t lss) ls =
  Store.cell_of (copy_with_selections t sels) (Some ls).
Proof. by destruct t. Qed.

Lemma selection_set_of_copy_with_directives t ds :
  selection_set_of (copy_with_directives t ds) = selection_set_of t.
Proof. by destruct t. Qed.

Lemma load_run l (h : Store.Heap) c :
  h !! l = Some c -> Store.load l h = Ok (c, h).
Proof. intros Hl. unfold Store.load. by rewrite Hl. Qed.

Lemma bind_M_run {A B} (m : Store.M A) (k : A -> Store.M B) (h : Store.Heap) :
  (m ≫= k) h =
  match m h with
  | Ok (a, h') => k a h'
  | Raise e => Raise e
  end.
Proof. reflexivity. Qed.

(** [copy] followed by the two assignments of [directives] amounts to one new
    object. *)
Lemma copy_set_directives_run l (h : Store.Heap) c ds ds' :
  h !! l = Some c ->
  exists l',
    h !! l' = None /\
    Store.copy l h = Ok (l', <[l' := c]> h) /\
    Store.set_directives l' ds (<[l' := c]> h)
      = Ok (tt, <[l' := Store.cell_with_directives c ds]> h) /\
    Store.set_directives l' ds'
      (<[l' := Store.cell_with_directives c ds]> h)
      = Ok (tt, <[l' := Store.cell_with_directives c ds']> h).
Proof.
  intros Hl. exists (fresh (dom h)).
  assert (Hnew : h !! fresh (dom h) = None)
    by apply not_elem_of_dom, is_fresh.
  split; [done |]. split; [| split].
  - unfold Store.copy. rewrite bind_M_run, (load_run _ _ _ Hl). done.
  - unfold Store.set_directives. rewrite bind_M_run.
    rewrite (load_run _ _ c) by apply lookup_insert_eq.
    unfold Store.store. rewrite lookup_insert_eq. by rewrite insert_insert_eq.
  - unfold Store.set_directives. rewrite bind_M_run.
    rewrite (load_run _ _ (Store.cell_with_directives c ds))
      by apply lookup_insert_eq.
    unfold Store.store. rewrite lookup_insert_eq.
    by rewrite insert_insert_eq, cell_with_directives_twice.
Qed.

Lemma rebuild_run l (h : Store.Heap) c sels :
  h !! l = Some c ->
  exists l',
    h !! l' = None /\
    Store.rebuild l sels h
      = Ok (l', <[l' := Store.cell_with_selections c sels]> h).
Proof.
  intros Hl. exists (fresh (dom h)).
  assert (Hnew : h !! fresh (dom h) = None)
    by apply not_elem_of_dom, is_fresh.
  split; [done |].
  unfold Store.rebuild, Store.copy, Store.set_selection_set, Store.load,
    Store.alloc, Store.store, mbind, Store.M_bind, mret, Store.M_ret.
  rewrite Hl, !lookup_insert_eq. by rewrite insert_insert_eq.
Qed.

Lemma represents_lookup (h : Store.Heap) l t :
  Store.represents h l t ->
  exists lss,
    h !! l = Some (Store.cell_of t lss) /\
    option_Forall2 (Forall2 (Store.represents h)) lss (selection_set_of t).
Proof. intros [l0 t0 lss Hl Hch]. eauto. Qed.

Lemma Forall2_represents_mono (h h' : Store.Heap) ls ts :
  h ⊆ h' -> Forall2 (Store.represents h) ls ts ->
  Forall2 (Store.represents h') ls ts.
Proof.
  intros Hsub Hall. eapply Forall2_impl; [exact Hall |].
  intros l t. by apply represents_mono.
Qed.


Lemma filter_target_selections_simulates f d ls sels :
  forall h : Store.Heap,
    Forall2 (Store.represents h) ls sels ->
    loop_simulates h (filter_target_selections f d sels)
      (Store.filter_target_selections f d ls h).
Proof.
  revert ls. induction sels as [| s sels IH]; intros ls h Hall.
  - apply Forall2_nil_inv_r in Hall as ->. simpl.
    exists [], h. split; [done |]. split; [done | constructor].
  - apply Forall2_cons_inv_r in Hall as (l & ls0 & Hl & Hall & ->).
    apply represents_lookup in Hl as (lss & Hl & Hch).
    simpl. rewrite bind_M_run, (load_run _ _ _ Hl).
    rewrite bind_M_run. unfold Store.lift at 1.
    rewrite field_name_of_cell.
    destruct (get_ast_field_name s) as [nm | e]; simpl; [| done].
    destruct (decide (nm = f)) as [-> | Hne].
    + destruct (copy_set_directives_run l h _ (directives_of s)
                  (directives_of s) Hl) as (l' & Hnew & Hcopy & Hset & _).
      rewrite bind_M_run, Hcopy.
      rewrite bind_M_run. unfold Store.lift at 1. rewrite cell_of_directives.
      rewrite bind_M_run, Hset.
      rewrite bind_M_run. unfold Store.lift at 1.
      destruct (prune_directives d (directives_of s)) as [[kept rem_s] | e];
        simpl; [| done].
      destruct (copy_set_directives_run l h _ (directives_of s)
                  (kept ++ [d]) Hl) as (l'' & _ & Hcopy' & _ & Hset').
      assert (l'' = l') as -> by congruence.
      rewrite bind_M_run, Hset'.
      set (h1 := <[l' := _]> h).
      assert (Hsub1 : h ⊆ h1) by (by apply insert_subseteq).
      specialize (IH ls0 h1 (Forall2_represents_mono _ _ _ _ Hsub1 Hall)).
      rewrite bind_M_run.
      destruct (filter_target_selections f d sels)
        as [[[sels' rem'] found'] | e]; simpl in *.
      * destruct IH as (ls' & h' & -> & Hsub2 & Hall').
        exists (l' :: ls'), h'. split; [done |].
        split; [by etrans |]. constructor; [| done].
        apply (Store.represents_node h' l'
                 (copy_with_directives s (kept ++ [d])) lss).
        -- eapply lookup_weaken; [| exact Hsub2]. unfold h1.
           rewrite lookup_insert_eq. by rewrite cell_of_copy_with_directives.
        -- rewrite selection_set_of_copy_with_directives.
           destruct Hch as [cl ct Hct |]; constructor.
           eapply Forall2_represents_mono; [| exact Hct]. by etrans.
      * by rewrite IH.
    + specialize (IH ls0 h Hall). rewrite bind_M_run.
      destruct (filter_target_selections f d sels)
        as [[[sels' rem'] found'] | e]; simpl in *.
      * destruct IH as (ls' & h' & -> & Hsub2 & Hall').
        exists (l :: ls'), h'. split; [done |]. split; [done |].
        constructor; [| done].
        apply (Store.represents_node h' l s lss).
        -- by eapply lookup_weaken.
        -- destruct Hch as [cl ct Hct |]; constructor.
           by eapply Forall2_represents_mono.
      * by rewrite IH.
Qed.



Lemma descend_selections_simulates
    (rec_tree : Node -> result (Node * list string))
    (rec_store : Store.loc -> Store.M (Store.loc * list string)) seg :
  (forall l s (h : Store.Heap),
     Store.represents h l s -> simulates h (rec_tree s) (rec_store l h)) ->
  forall sels ls (h : Store.Heap),
    Forall2 (Store.represents h) ls sels ->
    loop_simulates h (descend_selections rec_tree seg sels)
      (Store.descend_selections rec_store seg ls h).
Proof.
  intros Hrec sels. induction sels as [| s sels IH]; intros ls h Hall.
  - apply Forall2_nil_inv_r in Hall as ->. simpl.
    exists [], h. split; [done |]. split; [done | constructor].
  - apply Forall2_cons_inv_r in Hall as (l & ls0 & Hrep & Hall & ->).
    pose proof Hrep as Hrep0.
    apply represents_lookup in Hrep as (lss & Hl & Hch).
    simpl. rewrite bind_M_run, (load_run _ _ _ Hl).
    rewrite bind_M_run. unfold Store.lift at 1.
    rewrite field_name_of_cell.
    destruct (get_ast_field_name s) as [nm | e]; simpl; [| done].
    destruct (decide (nm = seg)) as [-> | Hne].
    + rewrite bind_M_run. specialize (Hrec l s h Hrep0).
      destruct (rec_tree s) as [[s' rem_s] | e]; simpl in *; [| by rewrite Hrec].
      destruct Hrec as (l' & h1 & -> & Hsub1 & Hrep').
      specialize (IH ls0 h1 (Forall2_represents_mono _ _ _ _ Hsub1 Hall)).
      rewrite bind_M_run.
      destruct (descend_selections rec_tree seg sels)
        as [[[sels' rem'] found'] | e]; simpl in *.
      * destruct IH as (ls' & h' & -> & Hsub2 & Hall').
        exists (l' :: ls'), h'. split; [done |].
        split; [by etrans |]. constructor; [| done].
        by eapply represents_mono.
      * by rewrite IH.
    + specialize (IH ls0 h Hall). rewrite bind_M_run.
      destruct (descend_selections rec_tree seg sels)
        as [[[sels' rem'] found'] | e]; simpl in *.
      * destruct IH as (ls' & h' & -> & Hsub2 & Hall').
        exists (l :: ls'), h'. split; [done |]. split; [done |].
        constructor; [| done]. by eapply represents_mono.
      * by rewrite IH.
Qed.

Lemma represents_rebuilt (h h' : Store.Heap) l l' t lss ls sels :
  h !! l = Some (Store.cell_of t lss) ->
  is_selection_capable t = true ->
  h ⊆ h' -> h' !! l' = None ->
  Forall2 (Store.represents h') ls sels ->
  Store.represents
    (<[l' := Store.cell_with_selections (Store.cell_of t lss) ls]> h') l'
    (copy_with_selections t sels).
Proof.
  intros Hl Hcap Hsub Hnew Hall.
  apply (Store.represents_node _ l' (copy_with_selections t sels) (Some ls)).
  - rewrite lookup_insert_eq. by rewrite (cell_of_copy_with_selections _ _ _ sels).
  - rewrite selection_set_of_copy by done. constructor.
    eapply Forall2_represents_mono; [| exact Hall]. by apply insert_subseteq.
Qed.

(** X16. The rewrite on the store is the rewrite on trees: from a node of
    the store that represents a tree, it raises what the rewrite of the tree
    raises, or returns a node of a larger store that represents the
    rewritten tree, with the same removed parameter names. *)
Theorem add_pagination_filter_simulates path f d :
  forall l t (h : Store.Heap),
    Store.represents h l t ->
    simulates h (_add_pagination_filter t path f d)
      (Store._add_pagination_filter l path f d h).
Proof.
  induction path as [| seg path IH]; intros l t h Hrep.
  - apply represents_lookup in Hrep as (lss & Hl & Hch).
    simpl. rewrite bind_M_run, (load_run _ _ _ Hl), cell_of_capable.
    destruct (is_selection_capable t) eqn:Hcap; simpl; [| done].
    rewrite bind_M_run. unfold Store.lift at 1.
    rewrite cell_of_selection_set by done.
    destruct Hch as [ls sels Hall |]; [| done].
    pose proof (filter_target_selections_simulates f d ls sels h Hall) as Hloop.
    rewrite bind_M_run.
    destruct (filter_target_selections f d sels)
      as [[[sels' rem'] found'] | e]; simpl in *; [| by rewrite Hloop].
    destruct Hloop as (ls' & h1 & -> & Hsub1 & Hall').
    destruct found'.
    + rewrite bind_M_run. unfold mret at 1, Store.M_ret at 1.
      assert (Hl1 : h1 !! l = Some (Store.cell_of t (Some ls)))
        by (by eapply lookup_weaken).
      destruct (rebuild_run l h1 _ ls' Hl1) as (l' & Hnew & Hrun).
      rewrite bind_M_run, Hrun. 
      eexists l', _. split; [reflexivity |].
      split; [etrans; [exact Hsub1 | by apply insert_subseteq] |].
      by eapply represents_rebuilt.
    + rewrite bind_M_run. rewrite bind_M_run.
      unfold Store.alloc at 1.
      set (new := fresh (dom h1)).
      assert (Hnew0 : h1 !! new = None) by apply not_elem_of_dom, is_fresh.
      set (h2 := <[new := _]> h1).
      assert (Hsub2 : h1 ⊆ h2) by (by apply insert_subseteq).
      unfold mret at 1, Store.M_ret at 1.
      assert (Hl2 : h2 !! l = Some (Store.cell_of t (Some ls))).
      { eapply lookup_weaken; [exact Hl |]. by etrans. }
      destruct (rebuild_run l h2 _ (new :: ls') Hl2) as (l' & Hnew & Hrun).
      rewrite bind_M_run, Hrun.
      eexists l', _. split; [reflexivity |].
      split; [etrans; [exact Hsub1 |];
              etrans; [exact Hsub2 | by apply insert_subseteq] |].
      eapply represents_rebuilt; [exact Hl2 | done | done | done |].
      constructor.
      * apply (Store.represents_node h2 new (new_filter_selection f d) None).
        -- unfold h2. by rewrite lookup_insert_eq.
        -- constructor.
      * by eapply Forall2_represents_mono.
  - apply represents_lookup in Hrep as (lss & Hl & Hch).
    simpl. rewrite bind_M_run, (load_run _ _ _ Hl), cell_of_capable.
    destruct (is_selection_capable t) eqn:Hcap; simpl; [| done].
    rewrite bind_M_run. unfold Store.lift at 1.
    rewrite cell_of_selection_set by done.
    destruct Hch as [ls sels Hall |]; [| done].
    pose proof (descend_selections_simulates
                  (fun s => _add_pagination_filter s path f d)
                  (fun l0 => Store._add_pagination_filter l0 path f d)
                  seg IH sels ls h Hall) as Hloop.
    rewrite bind_M_run.
    destruct (descend_selections _ seg sels)
      as [[[sels' rem'] found'] | e]; simpl in *; [| by rewrite Hloop].
    destruct Hloop as (ls' & h1 & -> & Hsub1 & Hall').
    destruct found'; [| done].
    assert (Hl1 : h1 !! l = Some (Store.cell_of t (Some ls)))
      by (by eapply lookup_weaken).
    destruct (rebuild_run l h1 _ ls' Hl1) as (l' & Hnew & Hrun).
    rewrite bind_M_run, Hrun.
    eexists l', _. split; [reflexivity |].
    split; [etrans; [exact Hsub1 | by apply insert_subseteq] |].
    by eapply represents_rebuilt.
Qed.

End Refinement.

Lemma example_field_name_of_cell t selections :
  example_store_get_ast_field_name (Store.cell_of t selections) =
  example_get_ast_field_name t.
Proof. by destruct t. Qed.

Lemma example_store_represents :
  Store.represents example_store 2%positive example_filtered_root.
Proof.
  apply (Store.represents_node _ _ example_filtered_root (Some [3%positive]));
    [reflexivity |].
  constructor. constructor; [| constructor].
  apply (Store.represents_node _ _ example_filtered_vertex
           (Some [4%positive; 5%positive])); [reflexivity |].
  constructor. constructor; [| constructor; [| constructor]].
  - by apply (Store.represents_node _ _ _ None); [| constructor].
  - by apply (Store.represents_node _ _ _ None); [| constructor].
Qed.

Lemma add_pagination_filter_simulates_witness :
  simulates example_store
    (_add_pagination_filter (CH := example_compiler_helpers)
       (AM := example_ast_manipulation) example_filtered_root ["Animal"] "uuid"
       (_make_binary_filter_directive_node "<" "__paged_param_0"))
    (Store._add_pagination_filter (CH := example_compiler_helpers)
       (SAM := example_store_ast_manipulation) 2%positive ["Animal"] "uuid"
       (_make_binary_filter_directive_node "<" "__paged_param_0")
       example_store).
Proof.
  apply (add_pagination_filter_simulates (CH := example_compiler_helpers)
           (AM := example_ast_manipulation)
           (SAM := example_store_ast_manipulation)
           example_field_name_of_cell).
  exact example_store_represents.
Defined.

(** ** Parameter conversion of the integration tests *)

Section DecimalConversionFacts.
Context {DS : DecimalStr}.

(** [try_convert_decimal_to_string] turns a [Decimal] into its string,
    converts the items of a list in place, keeping their number, and
    returns any other value as it is: a [Decimal] inside a tuple stays. *)
Lemma try_convert_decimal_to_string_cases :
  (forall d, try_convert_decimal_to_string (PyDecimal d) = PyStr (decimal_str d)) /\
  (forall items,
     exists converted,
       try_convert_decimal_to_string (PyList items) = PyList converted /\
       length converted = length items /\
       forall i x, items !! i = Some x ->
                   converted !! i = Some (try_convert_decimal_to_string x)) /\
  (forall items,
     try_convert_decimal_to_string (PyTuple items) = PyTuple items).
Proof.
  split; [done |]. split; [| done].
  intros items. exists (map try_convert_decimal_to_string items).
  split; [done |]. split; [by rewrite length_map |].
  intros i x Hx. change map with (@fmap list _) in *.
  by rewrite list_lookup_fmap, Hx.
Qed.

(** X17. After the conversion no [Decimal] is left in the value or in its
    lists, however deeply the lists are nested. *)
Theorem try_convert_decimal_to_string_no_decimal :
  forall value, no_decimal_in_lists (try_convert_decimal_to_string value).
Proof.
  fix IH 1. intros [| b | z | s | d | items | items]; simpl; try done.
  induction items as [| x items IHitems]; simpl; [done |].
  split; [apply IH | exact IHitems].
Qed.

(** X18. Converting twice is converting once. *)
Theorem try_convert_decimal_to_string_idempotent :
  forall value,
    try_convert_decimal_to_string (try_convert_decimal_to_string value) =
    try_convert_decimal_to_string value.
Proof.
  fix IH 1. intros [| b | z | s | d | items | items]; simpl; try done.
  f_equal. induction items as [| x items IHitems]; simpl; [done |].
  f_equal; [apply IH | exact IHitems].
Qed.

End DecimalConversionFacts.
